(** * Extractor.py: dumping the tables of a Manual apworld as JSON

    A shallow embedding of [Resources/Values/Extractor.py].  The script
    reads its configuration from the environment, opens the apworld (a zip
    archive), extracts it into a [TemporaryDirectory], loads the package's
    [Data.py] under the registry key [manual_data_<name>] with the
    Archipelago repository appended to [sys.path] for the duration of the
    load, and [json.dump]s seven tables of the loaded module to stdout.

    The parts of the Python runtime the script drives are modelled as well:
    the file system (an association list of paths, in creation order, which
    is the order [os.listdir] reports), the module registry [sys.modules],
    the module objects (a heap of mutable [__dict__]s, so that a module
    object shared between [sys.modules] and a parent package is one
    object), [sys.path], stdout, and the import of package-relative
    submodules.  Plugin code is a small statement language: assignments of
    literal values, [from .a.b import x as y], [sys.path.append] and
    [raise]. *)

From stdpp Require Import base gmap strings list.
From Stdlib Require Import ZArith Ascii.

#[local] Set Warnings "-register-all".
Local Open Scope Z_scope.

(* ------------------------------------------------------------------ *)
(** ** Python values *)

Module Py.

(** Values a plugin stores in its tables (literals Python's [json]
    can encode). *)
Inductive value :=
| VNone
| VBool (b : bool)
| VInt (z : Z)
| VStr (s : string)
| VList (l : list value)
| VDict (kv : list (string * value)).

(** What a module attribute holds: a plain value or a module object
    (identified by its address in the heap). *)
Inductive pyobj :=
| PVal (v : value)
| PMod (id : nat).

(** A file-system path, as its components. *)
Abbreviation path := (list string).

(** The exceptions the script and the runtime raise. *)
Inductive exn :=
| Exception (msg : string)          (** a bare [raise Exception(msg)] *)
| IndexError                        (** [[][0]] *)
| ValueError (s : string)           (** [int(s)] on a non-decimal string *)
| AttributeError (obj attr : string) (** module [obj] has no attribute [attr] *)
| ImportError (name attr : string)  (** cannot import [attr] from [name] *)
| ModuleNotFoundError (name : string)
| FileNotFoundError (p : string)
| IsADirectoryError (p : string)
| TypeError (msg : string)          (** [json] cannot encode an object *)
| RecursionError
| PluginError (msg : string)        (** raised by the plugin's own code *)
| OverflowError (msg : string)      (** an [int] too large for a C [ssize_t] *)
| BadZipFile (msg : string)         (** [zipfile] on a file that is not an archive *)
| NotADirectoryError (p : string)
| FileExistsError (p : string)
| PermissionError (p : string).

(** [str.isdigit] on a character: the ASCII digits and, among the
    Latin-1 code points, the superscripts one, two and three. *)
Definition is_digit_char (c : ascii) : bool :=
  let n := nat_of_ascii c in
  (Nat.leb 48 n && Nat.leb n 57) || Nat.eqb n 178 || Nat.eqb n 179
  || Nat.eqb n 185.

(** ASCII decimal digit, the only digits [int] accepts here. *)
Definition is_decimal_char (c : ascii) : bool :=
  let n := nat_of_ascii c in Nat.leb 48 n && Nat.leb n 57.

Fixpoint all_chars (p : ascii -> bool) (s : string) : bool :=
  match s with
  | EmptyString => true
  | String c s' => p c && all_chars p s'
  end.

(** [s.isdigit()]: non-empty and every character a digit. *)
Definition isdigit (s : string) : bool :=
  match s with
  | EmptyString => false
  | _ => all_chars is_digit_char s
  end.

Fixpoint digits_value (acc : Z) (s : string) : Z :=
  match s with
  | EmptyString => acc
  | String c s' => digits_value (10 * acc + (Z.of_nat (nat_of_ascii c) - 48)) s'
  end.

(** [sys.get_int_max_str_digits()] at its default: [int] and [str]
    refuse to convert between an [int] and more decimal digits. *)
Definition int_max_str_digits : nat := 4300.

(** [int(s)] for a string that passed [isdigit]: a string with a
    non-decimal digit is invalid, and so is one with more than
    [int_max_str_digits] digits (leading zeros count). *)
Definition py_int (s : string) : exn + Z :=
  if all_chars is_decimal_char s then
    if Nat.leb (String.length s) int_max_str_digits then inr (digits_value 0 s)
    else inl (ValueError s)
  else inl (ValueError s).

(** [dict] as Python keeps it: insertion order, assignment to an existing
    key keeps its position. *)
Fixpoint dict_get {V} (k : string) (d : list (string * V)) : option V :=
  match d with
  | [] => None
  | (k', v) :: d' => if String.eqb k k' then Some v else dict_get k d'
  end.

Fixpoint dict_set {V} (k : string) (v : V) (d : list (string * V))
    : list (string * V) :=
  match d with
  | [] => [(k, v)]
  | (k', v') :: d' =>
      if String.eqb k k' then (k, v) :: d' else (k', v') :: dict_set k v d'
  end.

Fixpoint join (sep : string) (l : list string) : string :=
  match l with
  | [] => ""
  | [x] => x
  | x :: l' => x +:+ sep +:+ join sep l'
  end.

Definition path_str (p : path) : string := "/" +:+ join "/" p.

End Py.
Import Py.

(* ------------------------------------------------------------------ *)
(** ** [json.dump] *)

Module Json.

(** The [indent] argument: [None], an [int] or a [str]. *)
Inductive indent := IInt (n : Z) | IStr (s : string).

(** [' ' * n] for an int indent, the string itself otherwise. *)
Definition indent_unit (i : indent) : string :=
  match i with
  | IInt n => String.concat "" (repeat " " (Z.to_nat n))
  | IStr s => s
  end.

Definition hex_digit (n : nat) : ascii :=
  if Nat.ltb n 10 then ascii_of_nat (48 + n) else ascii_of_nat (87 + n).

(** [py_encode_basestring_ascii] on one character. *)
Definition escape_char (c : ascii) : string :=
  let n := nat_of_ascii c in
  if Nat.eqb n 34 then String "092"%char (String "034"%char EmptyString)
  else if Nat.eqb n 92 then "\\"
  else if Nat.leb 32 n && Nat.leb n 126 then String c EmptyString
  else if Nat.eqb n 8 then "\b"
  else if Nat.eqb n 12 then "\f"
  else if Nat.eqb n 10 then "\n"
  else if Nat.eqb n 13 then "\r"
  else if Nat.eqb n 9 then "\t"
  else "\u00" +:+ String (hex_digit (n / 16)) (String (hex_digit (n mod 16)) EmptyString).

Fixpoint escape_body (s : string) : string :=
  match s with
  | EmptyString => EmptyString
  | String c s' => escape_char c +:+ escape_body s'
  end.

Definition escape (s : string) : string :=
  String "034"%char (escape_body s +:+ String "034"%char EmptyString).

(** [str(z)] for an int. *)
Fixpoint nat_digits (fuel : nat) (n : N) (acc : string) : string :=
  match fuel with
  | O => acc
  | S f =>
      let acc' := String (ascii_of_N (48 + N.modulo n 10)) acc in
      if N.ltb n 10 then acc' else nat_digits f (N.div n 10) acc'
  end.

Definition int_str (z : Z) : string :=
  let ds := nat_digits (S (Z.to_nat (Z.log2_up (Z.abs z + 1)))) (Z.to_N (Z.abs z)) "" in
  if Z.ltb z 0 then "-" +:+ ds else ds.

Definition rep (k : nat) (s : string) : string := String.concat "" (repeat s k).

(** The separators [JSONEncoder] chooses: [', '] without an indent,
    [','] with one; the key separator is [': '] in both cases. *)
Definition item_separator (ind : option indent) : string :=
  match ind with None => ", " | Some _ => "," end.

Definition key_separator : string := ": ".

(** The text of a container with already encoded members, as
    [_iterencode_list] and [_iterencode_dict] emit it at nesting [level]. *)
Definition container (ind : option indent) (level : nat) (op cl : string)
    (items : list string) : string :=
  match items with
  | [] => op +:+ cl
  | _ =>
      match ind with
      | None => op +:+ join (item_separator ind) items +:+ cl
      | Some i =>
          let nl := String "010"%char (rep (S level) (indent_unit i)) in
          op +:+ nl +:+ join ("," +:+ nl) items
             +:+ String "010"%char (rep level (indent_unit i)) +:+ cl
      end
  end.

(** [json.dumps] of a value at nesting [level]. *)
Fixpoint encode (ind : option indent) (level : nat) (v : value) : string :=
  match v with
  | VNone => "null"
  | VBool true => "true"
  | VBool false => "false"
  | VInt z => int_str z
  | VStr s => escape s
  | VList l => container ind level "[" "]" (map (encode ind (S level)) l)
  | VDict kv =>
      container ind level "{" "}"
        (map (fun '(k, x) => escape k +:+ key_separator +:+ encode ind (S level) x) kv)
  end.

(** [json.dump] writes the chunks [_make_iterencode] yields as they are
    produced, so when encoding fails the text before the failure is
    already on stdout.  The chunk functions below give the text written
    and, on failure, the exception.

    An [int] is written with [int.__repr__], which raises [ValueError]
    for more than [int_max_str_digits] digits. *)
Definition int_fits (z : Z) : bool := Z.abs z <? 10 ^ Z.of_nat int_max_str_digits.

Definition int_limit_msg : string :=
  "Exceeds the limit (4300 digits) for integer string conversion; use sys.set_int_max_str_digits() to increase the limit".

Definition int_chunk (z : Z) : string * option exn :=
  if int_fits z then (int_str z, None)
  else ("", Some (ValueError int_limit_msg)).

(** Every [int] in a value can be written. *)
Fixpoint ints_fit (v : value) : bool :=
  match v with
  | VInt z => int_fits z
  | VList l => forallb ints_fit l
  | VDict kv => forallb (fun '(_, x) => ints_fit x) kv
  | _ => true
  end.

(** The text that opens a non-empty container, the separator before each
    later member, and the text that closes it. *)
Definition open_text (ind : option indent) (level : nat) (op : string) : string :=
  match ind with
  | None => op
  | Some i => op +:+ String "010"%char (rep (S level) (indent_unit i))
  end.

Definition member_sep (ind : option indent) (level : nat) : string :=
  match ind with
  | None => item_separator ind
  | Some i => "," +:+ String "010"%char (rep (S level) (indent_unit i))
  end.

Definition close_text (ind : option indent) (level : nat) (cl : string) : string :=
  match ind with
  | None => cl
  | Some i => String "010"%char (rep level (indent_unit i)) +:+ cl
  end.

(** The members of a container: each is preceded by a buffer ([first]
    before the first member, [sep] before the others) and a key text
    ([""] in a list, the key and [": "] in a dict), and is encoded into
    its text and outcome.  A scalar list member is yielded together with
    its buffer ([yield buf + repr]), so when it fails the buffer is lost
    with it; every other buffer and key is yielded on its own. *)
Fixpoint emit (first sep : string) (ms : list (string * bool * (string * option exn)))
    : string * option exn :=
  match ms with
  | [] => ("", None)
  | (key, glued, (t, err)) :: ms' =>
      let pre := first +:+ key in
      match err with
      | None => let '(t', err') := emit sep sep ms' in (pre +:+ t +:+ t', err')
      | Some e => ((if glued then "" else pre) +:+ t, Some e)
      end
  end.

Definition close_chunks (ind : option indent) (level : nat) (cl : string)
    (r : string * option exn) : string * option exn :=
  match r with
  | (t, None) => (t +:+ close_text ind level cl, None)
  | (t, Some e) => (t, Some e)
  end.

Definition is_scalar (v : value) : bool :=
  match v with VList _ | VDict _ => false | _ => true end.

(** [_iterencode] of a value at nesting [level]: [_iterencode_list]
    opens its buffer with ['['] and the first line break, [_iterencode_dict]
    yields ['{'] and the line break on their own. *)
Fixpoint chunks (ind : option indent) (level : nat) (v : value) : string * option exn :=
  match v with
  | VInt z => int_chunk z
  | VList l =>
      match l with
      | [] => ("[]", None)
      | _ =>
          close_chunks ind level "]"
            (emit (open_text ind level "[") (member_sep ind level)
               (map (fun x => ("", is_scalar x, chunks ind (S level) x)) l))
      end
  | VDict kv =>
      match kv with
      | [] => ("{}", None)
      | _ =>
          let '(t, err) :=
            close_chunks ind level "}"
              (emit "" (member_sep ind level)
                 (map (fun '(k, x) => (escape k +:+ key_separator, false,
                                       chunks ind (S level) x)) kv)) in
          (open_text ind level "{" +:+ t, err)
      end
  | _ => (encode ind level v, None)
  end.

(** A member of the top-level dict: a value, or a module object, which
    [_iterencode] hands to [default], which raises [TypeError] before
    yielding anything. *)
Definition obj_chunks (ind : option indent) (o : pyobj) : string * option exn :=
  match o with
  | PVal v => chunks ind 1 v
  | PMod _ => ("", Some (TypeError "Object of type module is not JSON serializable"))
  end.

(** The text [json.dump] writes for the top-level dict of the script,
    and the exception that stopped it, if any. *)
Definition dump_text (ind : option indent) (d : list (string * pyobj))
    : string * option exn :=
  match d with
  | [] => ("{}", None)
  | _ =>
      let '(t, err) :=
        close_chunks ind 0 "}"
          (emit "" (member_sep ind 0)
             (map (fun '(k, o) => (escape k +:+ key_separator, false, obj_chunks ind o)) d)) in
      (open_text ind 0 "{" +:+ t, err)
  end.

(** [sys.maxsize].  [JSONEncoder] computes [' ' * indent] for an [int]
    indent before anything is written, and that raises [OverflowError]
    for an [indent] outside [-sys.maxsize - 1 .. sys.maxsize]. *)
Definition maxsize : Z := 9223372036854775807.

Definition indent_ok (ind : option indent) : bool :=
  match ind with
  | Some (IInt n) => (- maxsize - 1 <=? n) && (n <=? maxsize)
  | _ => true
  end.

End Json.
Import Json.

(* ------------------------------------------------------------------ *)
(** ** The runtime state and the monad the script runs in *)

Module Runtime.

(** Statements of plugin code. *)
Inductive stmt :=
| Assign (x : string) (v : value)
    (** [x = <literal>] *)
| FromImport (mods : list string) (attr x : string)
    (** [from .m1.m2 import attr as x]; [mods = []] is [from . import attr] *)
| PathAppend (d : string)
    (** [sys.path.append(d)] *)
| Raise (msg : string).
    (** [raise ...] *)

(** A file-system entry: a Python source file or a directory. *)
Inductive entry := FileE (body : list stmt) | DirE.

(** What a path given as [APWORLD_PATH] names on the host: a zip archive
    (its members in archive order, each a name, with a trailing ['/'] for
    a directory, and the contents), a file that is not an archive, a
    directory, or a file the process may not read. *)
Inductive host_file :=
| ZipArchive (members : list (string * list stmt))
| PlainFile
| HostDir
| Unreadable.

(** A module object: [__name__], [__path__] (packages only) and its
    [__dict__]. *)
Record modobj := mkMod {
  m_name : string;
  m_path : option path;
  m_dict : list (string * pyobj)
}.

Record state := mkState {
  fs : list (path * entry);
  zips : list (string * host_file);            (** the files [APWORLD_PATH] may name *)
  open_files : list string;                    (** files opened, in order *)
  sys_modules : gmap string nat;
  heap : gmap nat modobj;
  next_obj : nat;
  sys_path : list string;
  stdout : string;
  next_tmp : nat
}.

Definition set_fs (f : list (path * entry)) (s : state) : state :=
  mkState f (zips s) (open_files s) (sys_modules s) (heap s) (next_obj s)
    (sys_path s) (stdout s) (next_tmp s).
Definition set_open_files (o : list string) (s : state) : state :=
  mkState (fs s) (zips s) o (sys_modules s) (heap s) (next_obj s)
    (sys_path s) (stdout s) (next_tmp s).
Definition set_sys_modules (r : gmap string nat) (s : state) : state :=
  mkState (fs s) (zips s) (open_files s) r (heap s) (next_obj s)
    (sys_path s) (stdout s) (next_tmp s).
Definition set_heap (h : gmap nat modobj) (n : nat) (s : state) : state :=
  mkState (fs s) (zips s) (open_files s) (sys_modules s) h n
    (sys_path s) (stdout s) (next_tmp s).
Definition set_sys_path (p : list string) (s : state) : state :=
  mkState (fs s) (zips s) (open_files s) (sys_modules s) (heap s) (next_obj s)
    p (stdout s) (next_tmp s).
Definition set_stdout (o : string) (s : state) : state :=
  mkState (fs s) (zips s) (open_files s) (sys_modules s) (heap s) (next_obj s)
    (sys_path s) o (next_tmp s).
Definition set_next_tmp (n : nat) (s : state) : state :=
  mkState (fs s) (zips s) (open_files s) (sys_modules s) (heap s) (next_obj s)
    (sys_path s) (stdout s) n.

(** A computation raises an exception or returns, and in both cases
    leaves a state. *)
Definition M (A : Type) : Type := state -> (exn + A) * state.

Definition ret {A} (a : A) : M A := fun s => (inr a, s).
Definition throw {A} (e : exn) : M A := fun s => (inl e, s).
Definition bind {A B} (m : M A) (k : A -> M B) : M B :=
  fun s => match m s with
           | (inl e, s') => (inl e, s')
           | (inr a, s') => k a s'
           end.
Definition gets {A} (f : state -> A) : M A := fun s => (inr (f s), s).
Definition modify (f : state -> state) : M unit := fun s => (inr tt, f s).

Notation "x <- m ;; k" := (bind m (fun x => k))
  (at level 100, m at next level, right associativity).
Notation "m ;; k" := (bind m (fun _ => k))
  (at level 100, right associativity).

(** [try: m finally: fin] (the [finally] blocks of the script do not
    raise). *)
Definition try_finally {A} (m : M A) (fin : M unit) : M A :=
  fun s => let '(r, s1) := m s in (r, snd (fin s1)).

(** [try: m except e: h(e)], catching every exception. *)
Definition try_except {A} (m : M A) (h : exn -> M A) : M A :=
  fun s => match m s with
           | (inl e, s1) => h e s1
           | (inr a, s1) => (inr a, s1)
           end.

(** Operations on the parts of the state. *)
Definition reg_get (k : string) : M (option nat) :=
  gets (fun s => sys_modules s !! k).
Definition reg_set (k : string) (id : nat) : M unit :=
  modify (fun s => set_sys_modules (<[k := id]> (sys_modules s)) s).
Definition reg_del (k : string) : M unit :=
  modify (fun s => set_sys_modules (delete k (sys_modules s)) s).

Definition empty_mod : modobj := mkMod "" None [].

(** Module addresses come from [new_module], so the lookup always hits. *)
Definition heap_get (id : nat) : M modobj :=
  gets (fun s => default empty_mod (heap s !! id)).

Definition new_module (name : string) (p : option path) : M nat :=
  fun s => (inr (next_obj s),
            set_heap (<[next_obj s := mkMod name p []]> (heap s)) (S (next_obj s)) s).

(** [setattr(module, k, v)]. *)
Definition set_attr (id : nat) (k : string) (v : pyobj) : M unit :=
  modify (fun s =>
    match heap s !! id with
    | Some m =>
        set_heap (<[id := mkMod (m_name m) (m_path m) (dict_set k v (m_dict m))]> (heap s))
          (next_obj s) s
    | None => s
    end).

Definition write (txt : string) : M unit :=
  modify (fun s => set_stdout (stdout s +:+ txt) s).

(** The file system: paths in creation order. *)
Fixpoint assoc_path (p : path) (l : list (path * entry)) : option entry :=
  match l with
  | [] => None
  | (q, e) :: l' => if bool_decide (p = q) then Some e else assoc_path p l'
  end.

Fixpoint strip_prefix (pre p : path) : option path :=
  match pre, p with
  | [], _ => Some p
  | c :: pre', d :: p' => if String.eqb c d then strip_prefix pre' p' else None
  | _ :: _, [] => None
  end.

(** Whether [q] lies strictly below [p]. *)
Definition strictly_under (p q : path) : bool :=
  match strip_prefix p q with Some (_ :: _) => true | _ => false end.

(** [os.stat]: a file, a directory, nothing there ([ENOENT]), or a path
    through a file ([ENOTDIR]). *)
Inductive stat := SFile (body : list stmt) | SDir | SNoEnt | SNotDir.

(** What is at [p] itself: its entry, or a directory implied by an entry
    below it. *)
Definition kind (p : path) (l : list (path * entry)) : stat :=
  match assoc_path p l with
  | Some (FileE body) => SFile body
  | Some DirE => SDir
  | None => if existsb (fun '(q, _) => strictly_under p q) l then SDir else SNoEnt
  end.

(** Path resolution from the root: every proper prefix must be a
    directory; the first one that is missing gives [ENOENT], the first one
    that is a file [ENOTDIR]. *)
Fixpoint walk (pre rest : path) (l : list (path * entry)) : stat :=
  match rest with
  | [] => kind pre l
  | c :: rest' =>
      match kind pre l with
      | SDir => walk (pre ++ [c]) rest' l
      | SFile _ => SNotDir
      | _ => SNoEnt
      end
  end.

Definition fs_stat (p : path) (l : list (path * entry)) : stat :=
  match p with
  | [] => SDir
  | c :: p' => walk [c] p' l
  end.

Definition stat_of (p : path) : M stat := gets (fun s => fs_stat p (fs s)).

(** Writing a path keeps the position of an existing entry. *)
Fixpoint fs_put (p : path) (e : entry) (l : list (path * entry)) : list (path * entry) :=
  match l with
  | [] => [(p, e)]
  | (q, e') :: l' => if bool_decide (p = q) then (p, e) :: l' else (q, e') :: fs_put p e l'
  end.

Definition fs_write (p : path) (e : entry) : M unit :=
  modify (fun s => set_fs (fs_put p e (fs s)) s).

(** Creating [p] where nothing is: the parent must be a directory. *)
Definition create (p : path) (e : entry) : M unit :=
  up <- stat_of (removelast p) ;;
  match up with
  | SDir => fs_write p e
  | SNoEnt => throw (FileNotFoundError (path_str p))
  | _ => throw (NotADirectoryError (path_str p))
  end.

(** [os.mkdir(p)]. *)
Definition mkdir (p : path) : M unit :=
  st <- stat_of p ;;
  match st with
  | SNoEnt => create p DirE
  | SNotDir => throw (NotADirectoryError (path_str p))
  | _ => throw (FileExistsError (path_str p))
  end.

(** [os.makedirs(p)] ([exist_ok=False]): the parent is made first when
    [os.path.exists] says it is not there (a [FileExistsError] from that
    is ignored), then [p] itself with [mkdir]; [n] is the length of [p]. *)
Fixpoint makedirs_n (n : nat) (p : path) : M unit :=
  match n with
  | O => mkdir p
  | S n' =>
      let head := removelast p in
      hs <- stat_of head ;;
      (match hs with
       | SNoEnt | SNotDir =>
           try_except (makedirs_n n' head)
             (fun e => match e with FileExistsError _ => ret tt | _ => throw e end)
       | _ => ret tt
       end) ;;
      mkdir p
  end.

Definition makedirs (p : path) : M unit := makedirs_n (length p) p.

(** [open(p, "wb")] followed by writing [body]. *)
Definition open_wb (p : path) (body : list stmt) : M unit :=
  st <- stat_of p ;;
  match st with
  | SFile _ => fs_write p (FileE body)
  | SNoEnt => create p (FileE body)
  | SDir => throw (IsADirectoryError (path_str p))
  | SNotDir => throw (NotADirectoryError (path_str p))
  end.

Definition under (pre p : path) : bool :=
  match strip_prefix pre p with Some _ => true | None => false end.

(** [shutil.rmtree(pre)]. *)
Definition rmtree (pre : path) : M unit :=
  modify (fun s => set_fs (List.filter (fun '(p, _) => negb (under pre p)) (fs s)) s).

Fixpoint dedup (l : list string) : list string :=
  match l with
  | [] => []
  | x :: l' => x :: List.filter (fun y => negb (String.eqb x y)) (dedup l')
  end.

(** [os.listdir(d)]: the names of the immediate children of [d]; a
    directory created implicitly by a file under it counts as well. *)
Definition children (d : path) (l : list (path * entry)) : list string :=
  dedup (omap (fun '(p, _) =>
                 match strip_prefix d p with
                 | Some (c :: _) => Some c
                 | _ => None
                 end) l).

Definition listdir (d : path) : M (list string) := gets (fun s => children d (fs s)).

End Runtime.
Import Runtime.

(* ------------------------------------------------------------------ *)
(** ** [importlib]: package-relative imports *)

Module Importlib.

(** [base.c1.c2...]. *)
Fixpoint dotted (base : string) (comps : list string) : string :=
  match comps with
  | [] => base
  | c :: comps' => dotted (base +:+ "." +:+ c) comps'
  end.

(** [FileFinder.find_spec] for [child] in the package directory [dir]:
    a file [dir/child/__init__.py] makes a package whose [__path__] is
    [dir/child], a file [dir/child.py] a plain module, and otherwise a
    directory [dir/child] a namespace package (no code, [__path__]
    [dir/child]). *)
Definition find_spec (dir : path) (child : string)
    : M (option (list stmt * option path)) :=
  p <- stat_of (dir ++ [child; "__init__.py"]) ;;
  match p with
  | SFile body => ret (Some (body, Some (dir ++ [child])))
  | _ =>
      m <- stat_of (dir ++ [child +:+ ".py"]) ;;
      match m with
      | SFile body => ret (Some (body, None))
      | _ =>
          d <- stat_of (dir ++ [child]) ;;
          match d with
          | SDir => ret (Some ([], Some (dir ++ [child])))
          | _ => ret None
          end
      end
  end.

Section Loading.

(** Running the code of a module: its address, the package its relative
    imports resolve against ([__package__]) and its statements. *)
Variable exec : nat -> string -> list stmt -> M unit.

(** [_load_unlocked] followed by the binding on the parent in
    [_find_and_load_unlocked]: a fresh module is registered before its
    code runs and unregistered again if the code raises. *)
Definition load_child (parent child : string) : M nat :=
  let name := parent +:+ "." +:+ child in
  pid <- reg_get parent ;;
  match pid with
  | None => throw (ModuleNotFoundError name)
  | Some pid =>
      pm <- heap_get pid ;;
      match m_path pm with
      | None => throw (ModuleNotFoundError name)   (** parent is not a package *)
      | Some dir =>
          sp <- find_spec dir child ;;
          match sp with
          | None => throw (ModuleNotFoundError name)
          | Some (body, mpath) =>
              id <- new_module name mpath ;;
              reg_set name id ;;
              try_except (exec id (match mpath with Some _ => name | None => parent end) body)
                         (fun e => reg_del name ;; throw e) ;;
              cur <- reg_get name ;;
              let id' := default id cur in
              set_attr pid child (PMod id') ;;
              ret id'
          end
      end
  end.

(** [_find_and_load] of [base.c1...cn], the components given last first:
    a registered module is returned as it is; otherwise the parent is
    imported first, then the child loaded. *)
Fixpoint import_name (base : string) (rcomps : list string) : M nat :=
  match rcomps with
  | [] =>
      r <- reg_get base ;;
      match r with
      | Some id => ret id
      | None => throw (ModuleNotFoundError base)
      end
  | c :: rest =>
      let parent := dotted base (rev rest) in
      let name := parent +:+ "." +:+ c in
      cached <- reg_get name ;;
      match cached with
      | Some id => ret id
      | None =>
          import_name base rest ;;
          cached' <- reg_get name ;;
          match cached' with
          | Some id => ret id
          | None => load_child parent c
          end
      end
  end.

(** [from .<mods> import attr] in a module whose [__package__] is [pkg]
    ([rcomps] is [mods] reversed).  A missing attribute of a package is
    looked for as a submodule ([_handle_fromlist]). *)
Definition from_import (pkg : string) (rcomps : list string) (attr : string) : M pyobj :=
  id <- import_name pkg rcomps ;;
  m <- heap_get id ;;
  match dict_get attr (m_dict m) with
  | Some o => ret o
  | None =>
      match m_path m with
      | None => throw (ImportError (m_name m) attr)
      | Some _ =>
          let sub := dotted pkg (rev (attr :: rcomps)) in
          try_except (sid <- import_name pkg (attr :: rcomps) ;; ret (PMod sid))
            (fun e => match e with
                      | ModuleNotFoundError n =>
                          if String.eqb n sub then throw (ImportError (m_name m) attr)
                          else throw e
                      | _ => throw e
                      end)
      end
  end.

Definition exec_stmt (self : nat) (pkg : string) (st : stmt) : M unit :=
  match st with
  | Assign x v => set_attr self x (PVal v)
  | FromImport mods attr x =>
      o <- from_import pkg (rev mods) attr ;;
      set_attr self x o
  | PathAppend d => modify (fun s => set_sys_path (sys_path s ++ [d]) s)
  | Raise msg => throw (PluginError msg)
  end.

Fixpoint exec_stmts (self : nat) (pkg : string) (body : list stmt) : M unit :=
  match body with
  | [] => ret tt
  | st :: rest => exec_stmt self pkg st ;; exec_stmts self pkg rest
  end.

End Loading.

(** Module code; [fuel] bounds the nesting of imports (Python's recursion
    limit). *)
Fixpoint exec_body (fuel : nat) (self : nat) (pkg : string) (body : list stmt) : M unit :=
  match fuel with
  | O => throw RecursionError
  | S f => exec_stmts (exec_body f) self pkg body
  end.

(** The loader [spec_from_file_location] picks from the file suffix. *)
Inductive loader := SourceFileLoader.

Record module_spec := mkSpec {
  spec_name : string;
  spec_origin : path;
  spec_loader : option loader;
  spec_search : option path   (** [submodule_search_locations] *)
}.

Fixpoint ends_with (suf s : string) : bool :=
  String.eqb suf s || match s with
                      | EmptyString => false
                      | String _ s' => ends_with suf s'
                      end.

(** [importlib.util.spec_from_file_location(name, location,
    submodule_search_locations=[search])]: the file is not opened, the
    loader is chosen from the suffix, and no loader means no spec. *)
Definition spec_from_file_location (name : string) (location : path)
    (search : path) : option module_spec :=
  let base := last location in
  match base with
  | Some b => if ends_with ".py" b
              then Some (mkSpec name location (Some SourceFileLoader) (Some search))
              else None
  | None => None
  end.

(** [importlib.util.module_from_spec]. *)
Definition module_from_spec (sp : module_spec) : M nat :=
  new_module (spec_name sp) (spec_search sp).

(** [SourceFileLoader.get_data(p)]: opening the source file ([get_code]
    ignores a failing [stat] and reads the file anyway). *)
Definition read_source (p : path) : M (list stmt) :=
  st <- stat_of p ;;
  match st with
  | SFile body => ret body
  | SDir => throw (IsADirectoryError (path_str p))
  | SNotDir => throw (NotADirectoryError (path_str p))
  | SNoEnt => throw (FileNotFoundError (path_str p))
  end.

(** [loader.exec_module(module)]: [get_code] reads the file, then the
    code runs with the module's own name as [__package__] (the specs built
    here have search locations, which makes the module a package). *)
Definition exec_module (fuel : nat) (sp : module_spec) (id : nat) : M unit :=
  body <- read_source (spec_origin sp) ;;
  exec_body fuel id (spec_name sp) body.

End Importlib.
Import Importlib.

(* ------------------------------------------------------------------ *)
(** ** The script *)

Module Extractor.

Definition environ := list (string * string).

(** [os.environ.get(k)]. *)
Definition env_get (k : string) (env : environ) : option string := dict_get k env.

(** Lines 21-23: [debug_indent] stays [None] when unset, becomes an [int]
    when it passes [isdigit()], and otherwise stays the string. *)
Definition debug_indent_of (d : option string) : M (option indent) :=
  match d with
  | None => ret None
  | Some s =>
      if isdigit s then
        match py_int s with
        | inl e => throw e
        | inr n => ret (Some (IInt n))
        end
      else ret (Some (IStr s))
  end.

(** Line 26: [ZipFile(apworld_path, mode="r")] opens the file, which
    fails as [open] does, then reads the central directory, which fails
    with [BadZipFile] for a file that is not an archive. *)
Definition zip_open (p : string) : M (list (string * list stmt)) :=
  z <- gets (fun s => dict_get p (zips s)) ;;
  match z with
  | None => throw (FileNotFoundError p)
  | Some HostDir => throw (IsADirectoryError p)
  | Some Unreadable => throw (PermissionError p)
  | Some PlainFile => throw (BadZipFile "File is not a zip file")
  | Some (ZipArchive members) =>
      modify (fun s => set_open_files (open_files s ++ [p]) s) ;;
      ret members
  end.

(** [tempfile.mkdtemp()]. *)
Definition mkdtemp : M path :=
  n <- gets next_tmp ;;
  let d := ["tmp"; "tmp" +:+ int_str (Z.of_nat n)] in
  modify (fun s => set_next_tmp (S n) s) ;;
  fs_write d DirE ;;
  ret d.

(** [with TemporaryDirectory() as d: body]: the directory is removed
    when the block is left, normally or by an exception. *)
Definition with_tempdir (body : path -> M unit) : M unit :=
  d <- mkdtemp ;;
  try_finally (body d) (rmtree d).

(** [name.split("/")]. *)
Fixpoint split_slash (s : string) : list string :=
  match s with
  | EmptyString => [""]
  | String c s' =>
      let rest := split_slash s' in
      if Ascii.eqb c "/" then "" :: rest
      else match rest with
           | x :: xs => String c x :: xs
           | [] => [String c ""]
           end
  end.

(** The components [_extract_member] keeps of a member name: it drops
    [''], ['.'] and ['..']. *)
Definition sanitize (comps : list string) : path :=
  List.filter (fun c => negb (String.eqb c "" || String.eqb c "." || String.eqb c "..")) comps.

(** [getinfo(name)]: the archive's [NameToInfo] maps each name to the
    last member of that name. *)
Definition getinfo (members : list (string * list stmt)) (name : string) : list stmt :=
  fold_left (fun acc '(n, b) => if String.eqb n name then b else acc) members [].

(** [ZipFile._extract_member(name, d)]: the target is [d] joined with the
    sanitised name; missing parent directories are made with [makedirs]; a
    directory member is made with [mkdir] unless a directory is there, a
    file member is written with [open(target, "wb")]. *)
Definition extract_member (members : list (string * list stmt)) (d : path) (name : string)
    : M unit :=
  let targetpath := d ++ sanitize (split_slash name) in
  let upperdirs := removelast targetpath in
  ups <- stat_of upperdirs ;;
  (match ups with
   | SNoEnt | SNotDir => makedirs upperdirs
   | _ => ret tt
   end) ;;
  if ends_with "/" name then
    st <- stat_of targetpath ;;
    match st with
    | SDir => ret tt
    | _ => mkdir targetpath
    end
  else open_wb targetpath (getinfo members name).

Fixpoint extract_names (members : list (string * list stmt)) (d : path) (names : list string)
    : M unit :=
  match names with
  | [] => ret tt
  | n :: ns => extract_member members d n ;; extract_names members d ns
  end.

(** Line 29: [apworld_zip.extractall(d)] extracts the names of
    [namelist()] in order. *)
Definition extractall (members : list (string * list stmt)) (d : path) : M unit :=
  extract_names members d (map fst members).

(** Line 30: [os.listdir(temp_world_folder)[0]]. *)
Definition apworld_name_of (d : path) : M string :=
  names <- listdir d ;;
  match names with
  | [] => throw IndexError
  | n :: _ => ret n
  end.

Definition module_key (apworld_name : string) : string := "manual_data_" +:+ apworld_name.

(** [getattr(module, k)]. *)
Definition get_attr (m : modobj) (k : string) : M pyobj :=
  match dict_get k (m_dict m) with
  | Some o => ret o
  | None => throw (AttributeError (m_name m) k)
  end.

(** [getattr(module, k) if hasattr(module, k) else None]. *)
Definition opt_attr (m : modobj) (k : string) : pyobj :=
  default (PVal VNone) (dict_get k (m_dict m)).

(** [json.dump(obj, fp=sys.stdout, indent=ind)]: an [int] indent that is
    not index-sized fails before anything is written; otherwise the
    chunks are written until encoding fails. *)
Definition json_dump (d : list (string * pyobj)) (ind : option indent) : M unit :=
  if indent_ok ind then
    let '(txt, err) := dump_text ind d in
    write txt ;;
    match err with
    | Some e => throw e
    | None => ret tt
    end
  else throw (OverflowError "cannot fit 'int' into an index-sized integer").

(** The dict literal of lines 59-77, built left to right, then dumped. *)
Definition serialize (data_module : nat) (ind : option indent) : M unit :=
  m <- heap_get data_module ;;
  game <- get_attr m "game_table" ;;
  items <- get_attr m "item_table" ;;
  locations <- get_attr m "location_table" ;;
  regions <- get_attr m "region_table" ;;
  json_dump [("game.json", game); ("items.json", items);
             ("locations.json", locations); ("regions.json", regions);
             ("categories.json", opt_attr m "category_table");
             ("options.json", opt_attr m "option_table");
             ("meta.json", opt_attr m "meta_table")] ind.

(** Lines 31-56: build the spec, register the module, run it with the
    repository appended to [sys.path], restore [sys.path]. *)
Definition load_data_module (fuel : nat) (repo : string) (temp_world_folder : path)
    (apworld_name : string) : M nat :=
  let world_src_root := temp_world_folder ++ [apworld_name] in
  let module_file_path := world_src_root ++ ["Data.py"] in
  let key := module_key apworld_name in
  match spec_from_file_location key module_file_path world_src_root with
  | Some sp =>
      match spec_loader sp with
      | Some _ =>
          data_module <- module_from_spec sp ;;
          reg_set key data_module ;;
          original_sys_path <- gets sys_path ;;
          try_finally
            (modify (fun s => set_sys_path (sys_path s ++ [repo]) s) ;;
             exec_module fuel sp data_module)
            (modify (set_sys_path original_sys_path)) ;;
          ret data_module
      | None => throw (Exception ("Failed to create module spec for " +:+ path_str module_file_path))
      end
  | None => throw (Exception ("Failed to create module spec for " +:+ path_str module_file_path))
  end.

(** Lines 31-80, from the package name on. *)
Definition load_and_dump (fuel : nat) (repo : string) (ind : option indent)
    (temp_world_folder : path) (apworld_name : string) : M unit :=
  data_module <- load_data_module fuel repo temp_world_folder apworld_name ;;
  serialize data_module ind.

(** The body of the [with] block, lines 29-80. *)
Definition extract (fuel : nat) (repo : string) (ind : option indent)
    (members : list (string * list stmt)) (temp_world_folder : path) : M unit :=
  extractall members temp_world_folder ;;
  apworld_name <- apworld_name_of temp_world_folder ;;
  load_and_dump fuel repo ind temp_world_folder apworld_name.

(** The whole script. *)
Definition main (fuel : nat) (env : environ) : M unit :=
  match env_get "APWORLD_PATH" env with
  | None | Some EmptyString => throw (Exception "Missing APWORLD_PATH environment variable")
  | Some apworld_path =>
      match env_get "ARCHIPELAGO_REPO_PATH" env with
      | None | Some EmptyString =>
          throw (Exception "Missing ARCHIPELAGO_REPO_PATH environment variable")
      | Some archipelago_repo_path =>
          debug_indent <- debug_indent_of (env_get "DEBUG_INDENT" env) ;;
          apworld_zip <- zip_open apworld_path ;;
          with_tempdir (extract fuel archipelago_repo_path debug_indent apworld_zip)
      end
  end.

End Extractor.
Import Extractor.

(* ------------------------------------------------------------------ *)
(** ** States and inputs the properties talk about *)

Module Scenarios.

(** The state once [module_from_spec] and [sys.modules[module_key] = ...]
    have run. *)
Definition registered (name : string) (root : path) (s : state) : state :=
  set_sys_modules (<[module_key name := next_obj s]> (sys_modules s))
    (set_heap (<[next_obj s := mkMod (module_key name) (Some root) []]> (heap s))
       (S (next_obj s)) s).

Definition data_spec (T : path) (name : string) : module_spec :=
  mkSpec (module_key name) ((T ++ [name]) ++ ["Data.py"]) (Some SourceFileLoader)
    (Some (T ++ [name])).

(** The directory [mkdtemp] creates next. *)
Definition staging_dir (s : state) : path := ["tmp"; "tmp" +:+ int_str (Z.of_nat (next_tmp s))].

Definition sample_data : list stmt :=
  [Assign "game_table" (VDict [("name", VStr "Sample")]);
   Assign "item_table" (VList []);
   Assign "location_table" (VList []);
   Assign "region_table" (VList [])].

(** The archive of the spec's example: one folder [sample_game]. *)
Definition sample_zip : list (string * list stmt) :=
  [("sample_game/", []); ("sample_game/Data.py", sample_data)].

(** Two top-level folders. *)
Definition two_roots_zip : list (string * list stmt) :=
  [("a/Data.py", sample_data); ("b/Data.py", sample_data)].

(** A package without [Data.py]. *)
Definition no_data_zip : list (string * list stmt) :=
  [("sample_game/Items.py", [])].

(** A package whose [Data.py] is a folder. *)
Definition data_dir_zip : list (string * list stmt) :=
  [("sample_game/Data.py/x", [])].

(** A member whose name climbs out of the staging directory. *)
Definition slip_zip : list (string * list stmt) :=
  [("../evil/Data.py", sample_data)].

Definition archives : list (string * host_file) :=
  [("sample.apworld", ZipArchive sample_zip); ("two.apworld", ZipArchive two_roots_zip);
   ("empty.apworld", ZipArchive []); ("nodata.apworld", ZipArchive no_data_zip);
   ("datadir.apworld", ZipArchive data_dir_zip); ("slip.apworld", ZipArchive slip_zip);
   ("notes.txt", PlainFile); ("worlds", HostDir); ("locked.apworld", Unreadable)].

Definition init : state := mkState [] archives [] ∅ ∅ 0 ["/usr/lib/python3"] "" 0.

Definition env_for (apworld : string) : environ :=
  [("APWORLD_PATH", apworld); ("ARCHIPELAGO_REPO_PATH", "/ap")].

(** Two packages, [a] and [a.b]: [a/Data.py] imports [item_table] from
    its subpackage [b], module [a/b/Items.py]; [a.b/Data.py] imports it
    from its own [Items.py]. *)
Definition pkg_a : list (path * entry) :=
  [(["a"; "Data.py"],
    FileE [FromImport ["b"; "Items"] "item_table" "item_table";
           Assign "game_table" (VStr "A"); Assign "location_table" (VList []);
           Assign "region_table" (VList [])]);
   (["a"; "b"; "__init__.py"], FileE []);
   (["a"; "b"; "Items.py"], FileE [Assign "item_table" (VList [VStr "from a"])])].

Definition pkg_ab : list (path * entry) :=
  [(["a.b"; "Data.py"],
    FileE [FromImport ["Items"] "item_table" "item_table";
           Assign "game_table" (VStr "AB"); Assign "location_table" (VList []);
           Assign "region_table" (VList [])]);
   (["a.b"; "Items.py"], FileE [Assign "item_table" (VList [VStr "from a.b"])])].

Definition T1 : path := ["tmp"; "tmp0"].
Definition T2 : path := ["tmp"; "tmp1"].

(** Both archives extracted, nothing loaded yet. *)
Definition two_plugins : state :=
  mkState (map (fun '(p, e) => (T1 ++ p, e)) pkg_a ++ map (fun '(p, e) => (T2 ++ p, e)) pkg_ab)
    [] [] ∅ ∅ 0 [] "" 2.

(** A staging directory whose [p/Data.py] is a folder known only from a
    member below it, and one where [p] is a file. *)
Definition data_dir_state : state :=
  mkState [(T1 ++ ["p"; "Data.py"; "x"], FileE [])] [] [] ∅ ∅ 0 [] "" 1.

Definition file_root_state : state :=
  mkState [(T1 ++ ["p"], FileE [])] [] [] ∅ ∅ 0 [] "" 1.

(** A package [p] (directory [pkg]) whose submodule [c] raises. *)
Definition sub_state : state :=
  mkState [(["pkg"; "c.py"], FileE [Raise "boom"])] [] [] {["p" := 0%nat]}
    {[0%nat := mkMod "p" (Some ["pkg"]) []]} 1 [] "" 0.

End Scenarios.
Import Scenarios.

(* ------------------------------------------------------------------ *)
(** ** Registry namespaces and output shape *)

Module Namespaces.

Definition in_nsP (K k : string) : Prop := k = K \/ exists r, k = K +:+ "." +:+ r.

(** The strict submodules of [K]. *)
Definition extP (K k : string) : Prop := exists r, k = K +:+ "." +:+ r.

Fixpoint has_newline (s : string) : bool :=
  match s with
  | EmptyString => false
  | String c s' => Ascii.eqb c "010"%char || has_newline s'
  end.


(** Two states that differ at most in registry entries outside [R]. *)
Definition agree (R : string -> Prop) (s t : state) : Prop :=
  fs s = fs t /\ zips s = zips t /\ open_files s = open_files t /\ heap s = heap t /\
  next_obj s = next_obj t /\ sys_path s = sys_path t /\ stdout s = stdout t /\
  next_tmp s = next_tmp t /\ (forall k, R k -> sys_modules s !! k = sys_modules t !! k).

(** A computation that reads the registry only at keys in [R] (its
    outcome is the same from states that [agree] on [R]) and writes it only
    at keys in [W]. *)
Definition confined (R W : string -> Prop) {A} (m : M A) : Prop :=
  (forall s t, agree R s t -> fst (m s) = fst (m t) /\ agree R (snd (m s)) (snd (m t))) /\
  (forall s k, ~ W k -> sys_modules (snd (m s)) !! k = sys_modules s !! k).

(** From [s] to [s']: every path not strictly below [d] keeps its entry,
    and [d] is still a directory. *)
Definition keeps (d : path) (s s' : state) : Prop :=
  (forall x, strictly_under d x = false -> assoc_path x (fs s') = assoc_path x (fs s)) /\
  fs_stat d (fs s') = SDir.

(** A computation that, run where [d] is a directory, writes only below
    [d]. *)
Definition frame (d : path) {A} (m : M A) : Prop :=
  forall s, fs_stat d (fs s) = SDir -> keeps d s (snd (m s)).

End Namespaces.
Import Namespaces.

(* ================================================================== *)
(** * Properties *)

(** ** Which registry keys a computation reads and writes *)

Module Confinement.

Ltac st_simpl :=
  cbn [fs zips open_files sys_modules heap next_obj sys_path stdout next_tmp
       set_sys_modules set_heap set_fs set_sys_path set_stdout set_next_tmp
       set_open_files fst snd ret throw gets modify reg_get reg_set reg_del heap_get
       new_module set_attr stat_of write] in *.

Ltac agree_split :=
  repeat match goal with
         | H : agree _ _ _ |- _ =>
             destruct H as (?Hfs & ?Hzips & ?Hopen & ?Hheap & ?Hnext & ?Hpath & ?Hout & ?Htmp & ?Hreg)
         end.

Section Combinators.

Context (R W : string -> Prop).

Lemma confined_ret {A} (a : A) : confined R W (ret a).
Proof. split; [intros s t H; split; auto | intros; reflexivity]. Qed.

Lemma confined_throw {A} (e : exn) : confined R W (@throw A e).
Proof. split; [intros s t H; split; auto | intros; reflexivity]. Qed.

Lemma confined_bind {A B} (m : M A) (k : A -> M B) :
  confined R W m -> (forall a, confined R W (k a)) -> confined R W (bind m k).
Proof.
  intros [Hm Fm] Hk. split.
  - intros s t Hst. unfold bind. destruct (Hm s t Hst) as [Heq Hag].
    destruct (m s) as [[e|a] s'], (m t) as [[e'|a'] t']; st_simpl;
      inversion Heq; subst; [split; auto|].
    apply (proj1 (Hk a')). exact Hag.
  - intros s key Hw. unfold bind. pose proof (Fm s key Hw) as Hs.
    destruct (m s) as [[e|a] s']; st_simpl; [exact Hs|].
    rewrite (proj2 (Hk a) s' key Hw). exact Hs.
Qed.

Lemma confined_try_except {A} (m : M A) (h : exn -> M A) :
  confined R W m -> (forall e, confined R W (h e)) -> confined R W (try_except m h).
Proof.
  intros [Hm Fm] Hh. split.
  - intros s t Hst. unfold try_except. destruct (Hm s t Hst) as [Heq Hag].
    destruct (m s) as [[e|a] s'], (m t) as [[e'|a'] t']; st_simpl;
      inversion Heq; subst; [|split; auto].
    apply (proj1 (Hh e')). exact Hag.
  - intros s key Hw. unfold try_except. pose proof (Fm s key Hw) as Hs.
    destruct (m s) as [[e|a] s']; st_simpl; [|exact Hs].
    rewrite (proj2 (Hh e) s' key Hw). exact Hs.
Qed.

Lemma confined_gets {A} (f : state -> A) :
  (forall s t, agree R s t -> f s = f t) -> confined R W (gets f).
Proof.
  intros Hf. split; [intros s t H; split; st_simpl; [f_equal; auto | exact H] | intros; reflexivity].
Qed.

Lemma confined_modify (f : state -> state) :
  (forall s t, agree R s t -> agree R (f s) (f t)) ->
  (forall s, sys_modules (f s) = sys_modules s) -> confined R W (modify f).
Proof.
  intros Hf Hreg. split; [intros s t H; split; st_simpl; auto | intros s k _; st_simpl; rewrite Hreg; reflexivity].
Qed.

Lemma confined_reg_get (k : string) : R k -> confined R W (reg_get k).
Proof.
  intros Hk. apply confined_gets. intros s t H. agree_split. auto.
Qed.

Lemma confined_reg_set (k : string) (id : nat) : W k -> confined R W (reg_set k id).
Proof.
  intros Hk. split.
  - intros s t H. split; [reflexivity|]. agree_split.
    unfold reg_set, reg_del, modify; st_simpl.
    unfold agree; st_simpl; repeat split; auto. intros k' Hk'. destruct (decide (k = k')) as [->|Hne].
    + rewrite !lookup_insert_eq. reflexivity.
    + rewrite !lookup_insert_ne by done. auto.
  - intros s k' Hk'. unfold reg_set, reg_del, modify; st_simpl. rewrite lookup_insert_ne; [reflexivity|]. intros ->. auto.
Qed.

Lemma confined_reg_del (k : string) : W k -> confined R W (reg_del k).
Proof.
  intros Hk. split.
  - intros s t H. split; [reflexivity|]. agree_split.
    unfold reg_set, reg_del, modify; st_simpl.
    unfold agree; st_simpl; repeat split; auto. intros k' Hk'. destruct (decide (k = k')) as [->|Hne].
    + rewrite !lookup_delete_eq. reflexivity.
    + rewrite !lookup_delete_ne by done. auto.
  - intros s k' Hk'. unfold reg_set, reg_del, modify; st_simpl. rewrite lookup_delete_ne; [reflexivity|]. intros ->. auto.
Qed.

Lemma confined_heap_get (id : nat) : confined R W (heap_get id).
Proof. apply confined_gets. intros s t H. agree_split. congruence. Qed.

Lemma confined_new_module (name : string) (p : option path) : confined R W (new_module name p).
Proof.
  split.
  - intros s t H. unfold new_module. agree_split. st_simpl. rewrite Hnext, Hheap.
    split; [reflexivity|]. unfold agree; st_simpl; repeat split; st_simpl; auto.
  - intros s k _. reflexivity.
Qed.

Lemma confined_set_attr (id : nat) (k : string) (v : pyobj) : confined R W (set_attr id k v).
Proof.
  apply confined_modify.
  - intros s t H. agree_split. rewrite <- Hheap.
    destruct (heap s !! id); [|unfold agree; st_simpl; repeat split; auto].
    unfold agree; st_simpl; repeat split; st_simpl; auto.
  - intros s. destruct (heap s !! id); reflexivity.
Qed.

Lemma confined_stat_of (p : path) : confined R W (stat_of p).
Proof. apply confined_gets. intros s t H. agree_split. congruence. Qed.

Lemma confined_write (txt : string) : confined R W (write txt).
Proof.
  apply confined_modify; [|reflexivity].
  intros s t H. agree_split. unfold agree; st_simpl; repeat split; st_simpl; auto. congruence.
Qed.

Lemma confined_set_sys_path (f : list string -> list string) :
  confined R W (modify (fun s => set_sys_path (f (sys_path s)) s)).
Proof.
  apply confined_modify; [|reflexivity].
  intros s t H. agree_split. unfold agree; st_simpl; repeat split; st_simpl; auto. congruence.
Qed.

Lemma confined_find_spec (dir : path) (child : string) : confined R W (find_spec dir child).
Proof.
  unfold find_spec. apply confined_bind; [apply confined_stat_of|].
  intros [body| | |]; try apply confined_ret;
    (apply confined_bind; [apply confined_stat_of|]);
    intros [b| | |]; try apply confined_ret;
    (apply confined_bind; [apply confined_stat_of|]);
    intros [b'| | |]; apply confined_ret.
Qed.

Lemma confined_read_source (p : path) : confined R W (read_source p).
Proof.
  unfold read_source. apply confined_bind; [apply confined_stat_of|].
  intros [body| | |]; [apply confined_ret|apply confined_throw..].
Qed.

End Combinators.

Create HintDb confined.
#[export] Hint Resolve confined_ret confined_throw confined_heap_get confined_new_module
  confined_set_attr confined_stat_of confined_write confined_set_sys_path
  confined_find_spec confined_read_source : confined.

Lemma str_app_cons (x : ascii) (a b : string) : String x a +:+ b = String x (a +:+ b).
Proof. reflexivity. Qed.

Lemma str_app_nil (b : string) : "" +:+ b = b.
Proof. reflexivity. Qed.

Lemma str_app_nil_r (a : string) : a +:+ "" = a.
Proof. induction a as [|x a IH]; [reflexivity|]. rewrite str_app_cons, IH. reflexivity. Qed.

Lemma str_app_assoc (a b c : string) : (a +:+ b) +:+ c = a +:+ (b +:+ c).
Proof.
  induction a as [|x a IH]; [reflexivity|]. rewrite !str_app_cons, IH. reflexivity.
Qed.

Lemma ext_in_ns (K k : string) : extP K k -> in_nsP K k.
Proof. intros H. right. exact H. Qed.

Lemma ns_child (K q c : string) : in_nsP K q -> extP K (q +:+ "." +:+ c).
Proof.
  intros [->|[r ->]].
  - exists c. reflexivity.
  - exists (r +:+ "." +:+ c). rewrite !str_app_assoc. reflexivity.
Qed.

Lemma dotted_ns (K base : string) (l : list string) :
  in_nsP K base -> in_nsP K (dotted base l).
Proof.
  revert base. induction l as [|c l IH]; intros base Hb; simpl; [exact Hb|].
  apply IH. apply ext_in_ns, ns_child, Hb.
Qed.

Section Imports.

Variable K : string.
Variable exec : nat -> string -> list stmt -> M unit.
Hypothesis Hexec : forall self pkg body,
  in_nsP K pkg -> confined (in_nsP K) (extP K) (exec self pkg body).

Lemma load_child_confined (parent child : string) :
  in_nsP K parent -> confined (in_nsP K) (extP K) (load_child exec parent child).
Proof.
  intros Hp. unfold load_child.
  pose proof (ns_child K parent child Hp) as Hn.
  apply confined_bind; [apply confined_reg_get; exact Hp|]. intros [pid|]; auto with confined.
  apply confined_bind; [auto with confined|]. intros pm.
  destruct (m_path pm) as [dir|]; auto with confined.
  apply confined_bind; [auto with confined|]. intros [[body mpath]|]; auto with confined.
  apply confined_bind; [auto with confined|]. intros id.
  apply confined_bind; [apply confined_reg_set; exact Hn|]. intros _.
  apply confined_bind.
  { apply confined_try_except.
    - apply Hexec. destruct mpath; [apply ext_in_ns, Hn|exact Hp].
    - intros e. apply confined_bind; [apply confined_reg_del; exact Hn|auto with confined]. }
  intros _.
  apply confined_bind; [apply confined_reg_get, ext_in_ns, Hn|]. intros cur.
  apply confined_bind; auto with confined.
Qed.

Lemma import_name_confined (base : string) (rcomps : list string) :
  in_nsP K base -> confined (in_nsP K) (extP K) (import_name exec base rcomps).
Proof.
  intros Hb. induction rcomps as [|c rest IH]; simpl.
  - apply confined_bind; [apply confined_reg_get; exact Hb|].
    intros [id|]; auto with confined.
  - pose proof (dotted_ns K base (rev rest) Hb) as Hpar.
    pose proof (ns_child K _ c Hpar) as Hn.
    apply confined_bind; [apply confined_reg_get, ext_in_ns, Hn|]. intros [id|]; auto with confined.
    apply confined_bind; [exact IH|]. intros _.
    apply confined_bind; [apply confined_reg_get, ext_in_ns, Hn|]. intros [id|]; auto with confined.
    apply load_child_confined. exact Hpar.
Qed.

Lemma from_import_confined (pkg : string) (rcomps : list string) (attr : string) :
  in_nsP K pkg -> confined (in_nsP K) (extP K) (from_import exec pkg rcomps attr).
Proof.
  intros Hp. unfold from_import.
  apply confined_bind; [apply import_name_confined; exact Hp|]. intros id.
  apply confined_bind; [auto with confined|]. intros m.
  destruct (dict_get attr (m_dict m)); auto with confined.
  destruct (m_path m); auto with confined.
  apply confined_try_except.
  - apply confined_bind; [apply import_name_confined; exact Hp|auto with confined].
  - intros []; try (apply confined_throw).
    match goal with |- context [if ?b then _ else _] => destruct b end; auto with confined.
Qed.

Lemma exec_stmts_confined (self : nat) (pkg : string) (body : list stmt) :
  in_nsP K pkg -> confined (in_nsP K) (extP K) (exec_stmts exec self pkg body).
Proof.
  intros Hp. induction body as [|st rest IH]; simpl; auto with confined.
  apply confined_bind; [|intros _; exact IH].
  destruct st as [x v|mods attr x|d|msg]; simpl.
  - auto with confined.
  - apply confined_bind; [apply from_import_confined; exact Hp|auto with confined].
  - exact (confined_set_sys_path _ _ (fun p => p ++ [d])).
  - apply confined_throw.
Qed.

End Imports.

Lemma exec_body_confined (K : string) (fuel self : nat) (pkg : string) (body : list stmt) :
  in_nsP K pkg -> confined (in_nsP K) (extP K) (exec_body fuel self pkg body).
Proof.
  revert self pkg body. induction fuel as [|f IH]; intros self pkg body Hp; simpl.
  - apply confined_throw.
  - apply exec_stmts_confined; [|exact Hp]. intros. apply IH. assumption.
Qed.

(** [spec_from_file_location] never fails for [.../Data.py]: the guard of
    line 45 cannot fire. *)
Lemma data_spec_built (key : string) (root : path) :
  spec_from_file_location key (root ++ ["Data.py"]) root =
    Some (mkSpec key (root ++ ["Data.py"]) (Some SourceFileLoader) (Some root)).
Proof.
  unfold spec_from_file_location. rewrite last_snoc. reflexivity.
Qed.

Lemma exec_module_confined (K : string) (fuel : nat) (sp : module_spec) (id : nat) :
  in_nsP K (spec_name sp) -> confined (in_nsP K) (extP K) (exec_module fuel sp id).
Proof.
  intros Hp. unfold exec_module.
  apply confined_bind; [auto with confined|]. intros body.
  apply exec_body_confined. exact Hp.
Qed.

Lemma str_length_app (a b : string) : String.length (a +:+ b) = (String.length a + String.length b)%nat.
Proof. induction a as [|x a IH]; [reflexivity|]. rewrite str_app_cons. simpl. rewrite IH. reflexivity. Qed.

Lemma not_ext_self (K : string) : ~ extP K K.
Proof.
  intros [r Hr]. apply (f_equal String.length) in Hr.
  rewrite !str_length_app in Hr. simpl in Hr. lia.
Qed.

End Confinement.
Import Confinement.

(** ** The text [json.dump] writes *)

Module Encoding.

Lemma value_nested_ind (P : value -> Prop)
    (Hn : P VNone) (Hb : forall b, P (VBool b)) (Hi : forall z, P (VInt z))
    (Hs : forall s, P (VStr s))
    (Hl : forall l, Forall P l -> P (VList l))
    (Hd : forall kv, Forall (fun kx => P kx.2) kv -> P (VDict kv)) :
  forall v, P v.
Proof.
  fix IH 1. intros [| b | z | s | l | kv].
  - exact Hn.
  - apply Hb.
  - apply Hi.
  - apply Hs.
  - apply Hl.
    refine ((fix go (l : list value) : Forall P l :=
               match l with
               | [] => List.Forall_nil _
               | x :: l' => @List.Forall_cons _ _ x l' (IH x) (go l')
               end) l).
  - apply Hd.
    refine ((fix go (kv : list (string * value)) : Forall (fun kx => P kx.2) kv :=
               match kv with
               | [] => List.Forall_nil _
               | (k, x) :: kv' => @List.Forall_cons _ _ (k, x) kv' (IH x) (go kv')
               end) kv).
Qed.

Lemma has_newline_app (a b : string) :
  has_newline (a +:+ b) = has_newline a || has_newline b.
Proof.
  induction a as [|x a IH]; [reflexivity|]. rewrite str_app_cons. simpl.
  rewrite IH. apply orb_assoc.
Qed.

Lemma escape_char_no_nl (c : ascii) : has_newline (escape_char c) = false.
Proof. destruct c as [[] [] [] [] [] [] [] []]; reflexivity. Qed.

Lemma escape_no_nl (s : string) : has_newline (escape s) = false.
Proof.
  assert (Hb : forall t, has_newline (escape_body t) = false).
  { induction t as [|c t IH]; [reflexivity|]. simpl.
    rewrite has_newline_app, escape_char_no_nl, IH. reflexivity. }
  unfold escape. simpl. rewrite has_newline_app, Hb. reflexivity.
Qed.

Lemma nat_digits_no_nl (fuel : nat) (n : N) (acc : string) :
  has_newline acc = false -> has_newline (nat_digits fuel n acc) = false.
Proof.
  revert n acc. induction fuel as [|f IH]; intros n acc H; [exact H|].
  assert (Hc : Ascii.eqb (ascii_of_N (48 + N.modulo n 10)) "010"%char = false).
  { apply Ascii.eqb_neq. intros E. apply (f_equal N_of_ascii) in E.
    assert (Hm : (N.modulo n 10 < 10)%N) by (apply N.mod_lt; discriminate).
    rewrite N_ascii_embedding in E by lia.
    change (N_of_ascii "010"%char) with 10%N in E. revert E. generalize (N.modulo n 10). intros r Er. lia. }
  simpl. destruct (N.ltb n 10).
  - simpl. rewrite Hc. exact H.
  - apply IH. simpl. rewrite Hc. exact H.
Qed.

Lemma int_str_no_nl (z : Z) : has_newline (int_str z) = false.
Proof.
  unfold int_str. destruct (Z.ltb z 0).
  - rewrite has_newline_app, nat_digits_no_nl; reflexivity.
  - apply nat_digits_no_nl. reflexivity.
Qed.

Lemma spaces_length (k : nat) : String.length (String.concat "" (repeat " " k)) = k.
Proof.
  induction k as [|k IH]; [reflexivity|].
  assert (E : String.concat "" (repeat " " (S k)) = String " "%char (String.concat "" (repeat " " k))).
  { destruct k; reflexivity. }
  rewrite E. simpl. rewrite IH. reflexivity.
Qed.

Lemma all_decimal_digit (d : string) :
  all_chars is_decimal_char d = true -> all_chars is_digit_char d = true.
Proof.
  induction d as [|c d IH]; [reflexivity|]. simpl. intros H.
  apply andb_prop in H as [Hc Hd]. rewrite IH by exact Hd.
  unfold is_decimal_char in Hc. unfold is_digit_char. rewrite Hc. reflexivity.
Qed.

Lemma digits_value_nonneg (acc : Z) (d : string) :
  0 <= acc -> all_chars is_decimal_char d = true -> 0 <= digits_value acc d.
Proof.
  revert acc. induction d as [|c d IH]; intros acc Ha H; [exact Ha|]. simpl in *.
  apply andb_prop in H as [Hc Hd]. apply IH; [|exact Hd].
  unfold is_decimal_char in Hc. apply andb_prop in Hc as [Hc _].
  apply Nat.leb_le in Hc. lia.
Qed.

(** The chunk encoder, on a non-empty container. *)
Lemma chunks_list_cons (ind : option indent) (lvl : nat) (l : list value) :
  l <> [] ->
  chunks ind lvl (VList l) =
    close_chunks ind lvl "]"
      (emit (open_text ind lvl "[") (member_sep ind lvl)
         (map (fun x => ("", is_scalar x, chunks ind (S lvl) x)) l)).
Proof. destruct l; [congruence|reflexivity]. Qed.

Lemma chunks_dict_cons (ind : option indent) (lvl : nat) (kv : list (string * value)) :
  kv <> [] ->
  chunks ind lvl (VDict kv) =
    let '(t, err) :=
      close_chunks ind lvl "}"
        (emit "" (member_sep ind lvl)
           (map (fun '(k, x) => (escape k +:+ key_separator, false, chunks ind (S lvl) x)) kv)) in
    (open_text ind lvl "{" +:+ t, err).
Proof. destruct kv; [congruence|reflexivity]. Qed.

Lemma dump_text_cons (ind : option indent) (d : list (string * pyobj)) :
  d <> [] ->
  dump_text ind d =
    let '(t, err) :=
      close_chunks ind 0 "}"
        (emit "" (member_sep ind 0)
           (map (fun '(k, o) => (escape k +:+ key_separator, false, obj_chunks ind o)) d)) in
    (open_text ind 0 "{" +:+ t, err).
Proof. destruct d; [congruence|reflexivity]. Qed.

Lemma emit_cons_none (first sep key t : string) (g : bool) ms :
  emit first sep ((key, g, (t, None)) :: ms) =
    let '(t', err') := emit sep sep ms in ((first +:+ key) +:+ t +:+ t', err').
Proof. reflexivity. Qed.

(** Members that all encode without an error are written in full,
    separated by [sep]. *)
Lemma emit_none (first sep : string) (ms : list (string * bool * (string * option exn))) :
  ms <> [] -> Forall (fun m => snd (snd m) = None) ms ->
  emit first sep ms = (first +:+ join sep (map (fun '(k, _, (t, _)) => k +:+ t) ms), None).
Proof.
  revert first. induction ms as [|[[k g] [t e]] ms IH]; intros first Hne Hall; [congruence|].
  inversion Hall as [|? ? He Hrest]; subst. cbn [snd] in He. subst e.
  rewrite emit_cons_none. destruct ms as [|m ms].
  - cbn [emit map join]. rewrite !str_app_nil_r, !str_app_assoc. reflexivity.
  - rewrite IH by (discriminate || exact Hrest).
    cbn [map]. destruct m as [[k' g'] [t' e']].
    cbn [join]. rewrite !str_app_assoc. reflexivity.
Qed.


Lemma forall_map_intro {A B} (P : B -> Prop) (f : A -> B) (l : list A) :
  Forall (fun x => P (f x)) l -> Forall P (map f l).
Proof. induction 1; cbn [map]; constructor; auto. Qed.

(** Without an [int] too large to write, the chunks are the text of
    [json.dumps]. *)
Lemma chunks_fit (ind : option indent) (v : value) :
  ints_fit v = true -> forall lvl, chunks ind lvl v = (encode ind lvl v, None).
Proof.
  induction v as [| b | z | s | l IH | kv IH] using value_nested_ind; intros Hf lvl;
    try reflexivity.
  - cbn [chunks ints_fit] in *. unfold int_chunk. rewrite Hf. reflexivity.
  - destruct l as [|x l]; [reflexivity|].
    cbn [ints_fit] in Hf. rewrite forallb_forall in Hf. rewrite List.Forall_forall in IH.
    assert (Hc : forall y, In y (x :: l) -> chunks ind (S lvl) y = (encode ind (S lvl) y, None))
      by (intros y Hy; apply IH; [exact Hy|apply Hf, Hy]).
    rewrite chunks_list_cons by discriminate.
    rewrite emit_none.
    2: discriminate.
    2: { apply forall_map_intro, List.Forall_forall. intros y Hy. cbn [snd]. rewrite (Hc y Hy). reflexivity. }
    assert (Hm : map (fun '(k, _, (t, _)) => k +:+ t)
                   (map (fun x0 => ("", is_scalar x0, chunks ind (S lvl) x0)) (x :: l))
                 = map (encode ind (S lvl)) (x :: l)).
    { rewrite map_map. apply map_ext_in. intros y Hy. rewrite (Hc y Hy). reflexivity. }
    rewrite Hm. cbn [close_chunks]. destruct ind as [i|];
      cbn [map container open_text member_sep close_text item_separator];
      rewrite !str_app_assoc; reflexivity.
  - destruct kv as [|[k x] kv]; [reflexivity|].
    cbn [ints_fit] in Hf. rewrite forallb_forall in Hf. rewrite List.Forall_forall in IH.
    assert (Hc : forall k' y, In (k', y) ((k, x) :: kv) ->
                   chunks ind (S lvl) y = (encode ind (S lvl) y, None)).
    { intros k' y Hy. apply (IH (k', y) Hy). exact (Hf (k', y) Hy). }
    rewrite chunks_dict_cons by discriminate.
    rewrite emit_none.
    2: discriminate.
    2: { apply forall_map_intro, List.Forall_forall. intros [k' y] Hy. cbn [snd].
         rewrite (Hc k' y Hy). reflexivity. }
    assert (Hm : map (fun '(k, _, (t, _)) => k +:+ t)
                   (map (fun '(k, x) => (escape k +:+ key_separator, false, chunks ind (S lvl) x))
                      ((k, x) :: kv))
                 = map (fun '(k, x) => escape k +:+ key_separator +:+ encode ind (S lvl) x)
                     ((k, x) :: kv)).
    { rewrite map_map. apply map_ext_in. intros [k' y] Hy. cbn beta iota.
      rewrite (Hc k' y Hy). cbn. rewrite str_app_assoc. reflexivity. }
    rewrite Hm. cbn [close_chunks]. destruct ind as [i|];
      cbn [map container open_text member_sep close_text item_separator];
      rewrite !str_app_assoc; reflexivity.
Qed.

(** The top-level dict of plain values is written as [chunks] writes a
    dict at level 0. *)
Lemma dump_text_vals (ind : option indent) (kv : list (string * value)) :
  dump_text ind (map (fun '(k, v) => (k, PVal v)) kv) = chunks ind 0 (VDict kv).
Proof.
  destruct kv as [|[k v] kv]; [reflexivity|].
  rewrite dump_text_cons, chunks_dict_cons by discriminate.
  rewrite map_map.
  assert (E : forall l : list (string * value),
    map (fun x => let '(k0, o) := (let '(k1, v1) := x in (k1, PVal v1)) in
                  (escape k0 +:+ key_separator, false, obj_chunks ind o)) l
    = map (fun '(k0, x) => (escape k0 +:+ key_separator, false, chunks ind 1 x)) l)
    by (intros l; apply map_ext; intros [k0 x]; reflexivity).
  rewrite E. reflexivity.
Qed.

(** [json.dump] of a dict of values with an index-sized indent and no
    [int] too large to write succeeds and writes [json.dumps] of it. *)
Lemma json_dump_vals (ind : option indent) (kv : list (string * value)) (s : state) :
  indent_ok ind = true -> ints_fit (VDict kv) = true ->
  json_dump (map (fun '(k, v) => (k, PVal v)) kv) ind s =
    (inr tt, set_stdout (stdout s +:+ encode ind 0 (VDict kv)) s).
Proof.
  intros Hok Hf. unfold json_dump. rewrite Hok, dump_text_vals, (chunks_fit ind _ Hf).
  reflexivity.
Qed.

Lemma emit_no_nl (first sep : string) (ms : list (string * bool * (string * option exn))) :
  has_newline first = false -> has_newline sep = false ->
  Forall (fun m => has_newline m.1.1 = false /\ has_newline m.2.1 = false) ms ->
  has_newline (emit first sep ms).1 = false.
Proof.
  revert first. induction ms as [|[[k g] [t e]] ms IH]; intros first Hf Hs Hall; [reflexivity|].
  inversion Hall as [|? ? [Hk Ht] Hrest]; subst. cbn [fst snd] in Hk, Ht.
  destruct e as [e|].
  - cbn [emit fst]. rewrite has_newline_app, Ht.
    destruct g; [reflexivity|]. rewrite has_newline_app, Hf, Hk. reflexivity.
  - rewrite emit_cons_none. specialize (IH sep Hs Hs Hrest).
    destruct (emit sep sep ms) as [t' e'] eqn:E. cbn [fst] in IH |- *.
    rewrite !has_newline_app, Hf, Hk, Ht, IH. reflexivity.
Qed.

Lemma close_chunks_no_nl (lvl : nat) (cl : string) (r : string * option exn) :
  has_newline cl = false -> has_newline r.1 = false ->
  has_newline (close_chunks None lvl cl r).1 = false.
Proof.
  intros Hc Hr. destruct r as [t [e|]]; cbn [close_chunks fst close_text] in *; [exact Hr|].
  rewrite has_newline_app, Hr, Hc. reflexivity.
Qed.

(** Without an indent nothing [json.dump] writes has a line break, also
    when it stops at an error. *)
Lemma chunks_no_nl (v : value) : forall lvl, has_newline (chunks None lvl v).1 = false.
Proof.
  induction v as [| b | z | s | l IH | kv IH] using value_nested_ind; intros lvl.
  - reflexivity.
  - destruct b; reflexivity.
  - cbn [chunks]. unfold int_chunk. destruct (int_fits z); [apply int_str_no_nl|reflexivity].
  - apply escape_no_nl.
  - destruct l as [|x l]; [reflexivity|].
    rewrite chunks_list_cons by discriminate.
    apply close_chunks_no_nl; [reflexivity|].
    apply emit_no_nl; [reflexivity|reflexivity|].
    apply forall_map_intro. eapply Forall_impl; [exact IH|]. intros y Hy. split; [reflexivity|apply Hy].
  - destruct kv as [|[k x] kv]; [reflexivity|].
    rewrite chunks_dict_cons by discriminate.
    destruct (close_chunks _ _ _ _) as [t err] eqn:E.
    cbn [fst]. rewrite has_newline_app.
    change (has_newline t) with (has_newline (t, err).1). rewrite <- E.
    apply close_chunks_no_nl; [reflexivity|].
    apply emit_no_nl; [reflexivity|reflexivity|].
    apply forall_map_intro. eapply Forall_impl; [exact IH|]. intros [k' y] Hy.
    cbn [fst snd]. rewrite has_newline_app, escape_no_nl. split; [reflexivity|apply Hy].
Qed.

Lemma dump_text_no_nl (d : list (string * pyobj)) : has_newline (dump_text None d).1 = false.
Proof.
  destruct d as [|[k o] d]; [reflexivity|].
  rewrite dump_text_cons by discriminate.
  destruct (close_chunks _ _ _ _) as [t err] eqn:E.
  cbn [fst]. rewrite has_newline_app.
  change (has_newline t) with (has_newline (t, err).1). rewrite <- E.
  apply close_chunks_no_nl; [reflexivity|].
  apply emit_no_nl; [reflexivity|reflexivity|].
  apply forall_map_intro. apply List.Forall_forall. intros [k' o'] _.
  cbn [fst snd]. rewrite has_newline_app, escape_no_nl. split; [reflexivity|].
  destruct o'; [apply chunks_no_nl|reflexivity].
Qed.

End Encoding.
Import Encoding.

Module Facts.

(** ** Configuration *)

(** Claim C9: a missing (unset or empty) [APWORLD_PATH] or
    [ARCHIPELAGO_REPO_PATH] makes the script raise before anything else
    happens: the state is left exactly as it was, so no archive is opened,
    no directory created and nothing written. *)
Theorem main_missing_config_no_effect (fuel : nat) (env : environ) (s : state) :
  (env_get "APWORLD_PATH" env = None \/ env_get "APWORLD_PATH" env = Some "" \/
   env_get "ARCHIPELAGO_REPO_PATH" env = None \/
   env_get "ARCHIPELAGO_REPO_PATH" env = Some "") ->
  exists msg, main fuel env s = (inl (Exception msg), s).
Proof.
  intros H. unfold main.
  destruct (env_get "APWORLD_PATH" env) as [[|c ap]|] eqn:Ha;
    try (eexists; reflexivity).
  destruct H as [H|[H|H]]; try discriminate.
  destruct (env_get "ARCHIPELAGO_REPO_PATH" env) as [[|c' r]|] eqn:Hr;
    try (eexists; reflexivity).
  destruct H; discriminate.
Qed.

Lemma main_missing_config_no_effect_witness :
  (env_get "APWORLD_PATH" [("ARCHIPELAGO_REPO_PATH", "/ap")] = None \/
   env_get "APWORLD_PATH" [("ARCHIPELAGO_REPO_PATH", "/ap")] = Some "" \/
   env_get "ARCHIPELAGO_REPO_PATH" [("ARCHIPELAGO_REPO_PATH", "/ap")] = None \/
   env_get "ARCHIPELAGO_REPO_PATH" [("ARCHIPELAGO_REPO_PATH", "/ap")] = Some "") /\
  exists msg, main 10 [("ARCHIPELAGO_REPO_PATH", "/ap")]
                (mkState [] [] [] ∅ ∅ 0 [] "" 0)
              = (inl (Exception msg), mkState [] [] [] ∅ ∅ 0 [] "" 0).
Proof.
  split.
  - left. reflexivity.
  - apply main_missing_config_no_effect. left. reflexivity.
Defined.

(** ** Serialisation *)

(** Claim C1 (as the code has it): when the loaded module has the four
    required tables, the script writes one JSON object whose keys are the
    seven file names in the fixed order, the required ones bound to the
    tables and the optional ones to the table when the attribute exists
    and to [null] when it does not. This holds for every indent [json.dump]
    accepts (an index-sized [int], a string or none) and every dict without
    an [int] of more than 4300 decimal digits. *)
Theorem serialize_seven_keys (data_module : nat) (m : modobj) (ind : option indent)
    (s : state) (g it lo re : value) (oc oo om : option value) :
  heap s !! data_module = Some m ->
  dict_get "game_table" (m_dict m) = Some (PVal g) ->
  dict_get "item_table" (m_dict m) = Some (PVal it) ->
  dict_get "location_table" (m_dict m) = Some (PVal lo) ->
  dict_get "region_table" (m_dict m) = Some (PVal re) ->
  dict_get "category_table" (m_dict m) = PVal <$> oc ->
  dict_get "option_table" (m_dict m) = PVal <$> oo ->
  dict_get "meta_table" (m_dict m) = PVal <$> om ->
  indent_ok ind = true ->
  ints_fit (VDict [("game.json", g); ("items.json", it);
                   ("locations.json", lo); ("regions.json", re);
                   ("categories.json", default VNone oc);
                   ("options.json", default VNone oo);
                   ("meta.json", default VNone om)]) = true ->
  serialize data_module ind s =
    (inr tt,
     set_stdout (stdout s +:+
       encode ind 0 (VDict [("game.json", g); ("items.json", it);
                            ("locations.json", lo); ("regions.json", re);
                            ("categories.json", default VNone oc);
                            ("options.json", default VNone oo);
                            ("meta.json", default VNone om)])) s).
Proof.
  intros Hm Hg Hi Hl Hr Hc Ho Hme Hok Hfit.
  rewrite <- (json_dump_vals _ _ s Hok Hfit).
  unfold serialize, heap_get, gets, bind; simpl. rewrite Hm; simpl.
  unfold get_attr. rewrite Hg, Hi, Hl, Hr. simpl.
  unfold opt_attr. rewrite Hc, Ho, Hme.
  destruct oc, oo, om; reflexivity.
Qed.

Lemma serialize_seven_keys_witness :
  let m := mkMod "manual_data_sample_game" None
             [("game_table", PVal (VDict [("name", VStr "Sample")]));
              ("item_table", PVal (VList [VInt 7])); ("location_table", PVal (VList []));
              ("region_table", PVal (VList []));
              ("meta_table", PVal (VDict [("v", VInt 2)]))] in
  let s := mkState [] [] [] ∅ {[0%nat := m]} 1 [] "" 0 in
  serialize 0 (Some (IInt 2)) s =
    (inr tt,
     set_stdout (stdout s +:+
       encode (Some (IInt 2)) 0
         (VDict [("game.json", VDict [("name", VStr "Sample")]);
                 ("items.json", VList [VInt 7]); ("locations.json", VList []);
                 ("regions.json", VList []);
                 ("categories.json", default VNone None);
                 ("options.json", default VNone None);
                 ("meta.json", default VNone (Some (VDict [("v", VInt 2)])))])) s).
Proof.
  intros m s.
  apply (serialize_seven_keys 0 m (Some (IInt 2)) s _ _ _ _ None None
           (Some (VDict [("v", VInt 2)]))); vm_compute; reflexivity.
Defined.

(** Claim C1, counterexample: a module with the four tables whose
    [item_table] holds an [int] of 4301 digits. [json.dump] raises
    [ValueError] after it has written the start of the object, up to the
    key of [items.json]: no complete JSON object is produced. *)
Lemma serialize_big_int_partial :
  let m := mkMod "manual_data_sample_game" None
             [("game_table", PVal (VDict [("name", VStr "Sample")]));
              ("item_table", PVal (VList [VInt (10 ^ 4300)]));
              ("location_table", PVal (VList [])); ("region_table", PVal (VList []))] in
  let s := mkState [] [] [] ∅ {[0%nat := m]} 1 [] "" 0 in
  serialize 0 None s =
    (inl (ValueError int_limit_msg),
     set_stdout ("{" +:+ escape "game.json" +:+ key_separator +:+
                 encode None 1 (VDict [("name", VStr "Sample")]) +:+ ", " +:+
                 escape "items.json" +:+ key_separator) s).
Proof. vm_compute. reflexivity. Qed.

(** Claim C2: when exactly one of the four required tables is missing,
    building the dict raises [AttributeError] naming it (the spec's
    [MissingTableError]), before [json.dump] runs: the state, stdout
    included, is unchanged. *)
Theorem serialize_missing_required (data_module : nat) (m : modobj)
    (ind : option indent) (s : state) (k : string) :
  heap s !! data_module = Some m ->
  (k = "game_table" \/ k = "item_table" \/ k = "location_table" \/ k = "region_table") ->
  dict_get k (m_dict m) = None ->
  (forall k', (k' = "game_table" \/ k' = "item_table" \/ k' = "location_table" \/
               k' = "region_table") -> k' <> k -> is_Some (dict_get k' (m_dict m))) ->
  serialize data_module ind s = (inl (AttributeError (m_name m) k), s).
Proof.
  intros Hm Hk Hnone Hothers.
  unfold serialize, heap_get, gets, bind; simpl. rewrite Hm; simpl.
  unfold get_attr.
  destruct Hk as [ -> | [ -> | [ -> | -> ]]]; rewrite ?Hnone; [reflexivity| | |].
  - destruct (Hothers "game_table") as [g Hg]; [left; done|done|].
    rewrite Hg. reflexivity.
  - destruct (Hothers "game_table") as [g Hg]; [left; done|done|].
    destruct (Hothers "item_table") as [i Hi]; [right; left; done|done|].
    rewrite Hg, Hi. reflexivity.
  - destruct (Hothers "game_table") as [g Hg]; [left; done|done|].
    destruct (Hothers "item_table") as [i Hi]; [right; left; done|done|].
    destruct (Hothers "location_table") as [l Hl]; [right; right; left; done|done|].
    rewrite Hg, Hi, Hl. reflexivity.
Qed.

Lemma serialize_missing_required_witness :
  let m := mkMod "manual_data_x" None
             [("game_table", PVal VNone); ("location_table", PVal VNone);
              ("region_table", PVal VNone)] in
  let s := mkState [] [] [] ∅ {[0%nat := m]} 1 [] "" 0 in
  serialize 0 None s = (inl (AttributeError (m_name m) "item_table"), s).
Proof.
  intros m s. apply (serialize_missing_required 0 m None s "item_table").
  - reflexivity.
  - right; left; reflexivity.
  - reflexivity.
  - intros k' Hk' Hne. destruct Hk' as [ -> | [ -> | [ -> | -> ]]];
      [eexists; reflexivity|congruence|eexists; reflexivity|eexists; reflexivity].
Defined.

(** ** The package name *)

(** Claim C6 (as the code has it): the package name is the first entry
    of [os.listdir]; an empty listing raises [IndexError], and a listing
    with several entries is not rejected. *)
Theorem apworld_name_first_listing (d : path) (s : state) :
  apworld_name_of d s =
    match children d (fs s) with
    | [] => (inl IndexError, s)
    | n :: _ => (inr n, s)
    end.
Proof.
  unfold apworld_name_of, listdir, gets, bind. simpl.
  destruct (children d (fs s)); reflexivity.
Qed.

(** ** Loading [Data.py] *)





(** [load_data_module] unfolded: the module is registered, its code runs
    with the repository appended to [sys.path], and [sys.path] is set
    back whatever the code did. *)
Lemma load_data_module_unfold (fuel : nat) (repo : string) (T : path) (name : string)
    (s : state) :
  load_data_module fuel repo T name s =
    let s1 := registered name (T ++ [name]) s in
    let '(r, s2) := exec_module fuel (data_spec T name) (next_obj s)
                      (set_sys_path (sys_path s1 ++ [repo]) s1) in
    (match r with inl e => inl e | inr _ => inr (next_obj s) end,
     set_sys_path (sys_path s) s2).
Proof.
  unfold load_data_module. rewrite data_spec_built. simpl.
  unfold bind, module_from_spec, new_module, reg_set, modify, gets, try_finally.
  simpl. destruct (exec_module _ _ _ _) as [[e|u] s2]; reflexivity.
Qed.

(** Claim C7: the code of [Data.py] runs with the repository appended to
    the [sys.path] the script found, and afterwards [sys.path] is that
    value again, whether the code returned or raised. *)
Theorem load_restores_sys_path (fuel : nat) (repo : string) (T : path) (name : string)
    (s : state) :
  sys_path (snd (load_data_module fuel repo T name s)) = sys_path s /\
  exists r s2,
    exec_module fuel (data_spec T name) (next_obj s)
      (set_sys_path (sys_path s ++ [repo]) (registered name (T ++ [name]) s)) = (r, s2) /\
    load_data_module fuel repo T name s =
      (match r with inl e => inl e | inr _ => inr (next_obj s) end,
       set_sys_path (sys_path s) s2).
Proof.
  rewrite load_data_module_unfold. simpl.
  destruct (exec_module _ _ _ _) as [r s2] eqn:E.
  split; [reflexivity|]. exists r, s2. split; reflexivity.
Qed.

(** Claim C8 (as the code has it): the "Failed to create module spec"
    error cannot occur for [Data.py]; a [Data.py] that cannot be read is
    found out only by [exec_module], after the module has been created and
    registered and before any plugin code runs (the module's [__dict__] is
    still empty). [get_data] then raises [FileNotFoundError] when nothing
    is at that path, [IsADirectoryError] when it is a folder (also one
    known only from the members below it), and [NotADirectoryError] when a
    folder on the way is a file. *)
Theorem load_missing_data_file (fuel : nat) (repo : string) (T : path) (name : string)
    (s : state) :
  spec_from_file_location (module_key name) ((T ++ [name]) ++ ["Data.py"]) (T ++ [name])
    = Some (data_spec T name) /\
  (fs_stat ((T ++ [name]) ++ ["Data.py"]) (fs s) = SNoEnt ->
   load_data_module fuel repo T name s =
     (inl (FileNotFoundError (path_str ((T ++ [name]) ++ ["Data.py"]))),
      registered name (T ++ [name]) s)) /\
  (fs_stat ((T ++ [name]) ++ ["Data.py"]) (fs s) = SDir ->
   load_data_module fuel repo T name s =
     (inl (IsADirectoryError (path_str ((T ++ [name]) ++ ["Data.py"]))),
      registered name (T ++ [name]) s)) /\
  (fs_stat ((T ++ [name]) ++ ["Data.py"]) (fs s) = SNotDir ->
   load_data_module fuel repo T name s =
     (inl (NotADirectoryError (path_str ((T ++ [name]) ++ ["Data.py"]))),
      registered name (T ++ [name]) s)).
Proof.
  split; [apply data_spec_built|].
  split; [|split]; intros Hst; rewrite load_data_module_unfold; cbv zeta;
    unfold exec_module, read_source, stat_of, gets, bind; cbn [spec_origin data_spec fst snd];
    change (fs (set_sys_path (sys_path (registered name (T ++ [name]) s) ++ [repo])
                  (registered name (T ++ [name]) s))) with (fs s);
    rewrite Hst; reflexivity.
Qed.

(** ** The staging directory *)

Lemma rmtree_clears (d : path) (s : state) (p : path) (e : entry) :
  In (p, e) (fs (snd (rmtree d s))) -> under d p = false.
Proof.
  unfold rmtree, modify. simpl. intros Hin.
  apply filter_In in Hin as [_ Hneg]. now apply negb_true_iff in Hneg.
Qed.

Lemma debug_indent_of_state (d : option string) (s : state) :
  snd (debug_indent_of d s) = s.
Proof.
  unfold debug_indent_of. destruct d as [str|]; [|reflexivity].
  destruct (isdigit str); [|reflexivity].
  destruct (py_int str); reflexivity.
Qed.

Lemma zip_open_state (p : string) (s : state) :
  fs (snd (zip_open p s)) = fs s /\ next_tmp (snd (zip_open p s)) = next_tmp s.
Proof.
  unfold zip_open, gets, bind, modify. simpl.
  destruct (dict_get p (zips s)) as [[]|]; split; reflexivity.
Qed.


(** Claim C3: after every run of the script nothing is left under the
    staging directory, whatever happened: the run failed before creating
    it (then nothing was there to begin with), or the [with] block was
    left normally or by an exception and [rmtree] removed it. *)
Theorem main_removes_staging (fuel : nat) (env : environ) (s : state) :
  (forall p e, In (p, e) (fs s) -> under (staging_dir s) p = false) ->
  forall p e, In (p, e) (fs (snd (main fuel env s))) -> under (staging_dir s) p = false.
Proof.
  intros Hfree p e. unfold main.
  destruct (env_get "APWORLD_PATH" env) as [[|c ap]|]; simpl; [apply Hfree| |apply Hfree].
  destruct (env_get "ARCHIPELAGO_REPO_PATH" env) as [[|c' r]|]; simpl; [apply Hfree| |apply Hfree].
  unfold bind at 1.
  pose proof (debug_indent_of_state (env_get "DEBUG_INDENT" env) s) as Hd.
  destruct (debug_indent_of _ s) as [[ex|di] s1] eqn:Ed; simpl in Hd; subst s1;
    [apply Hfree|].
  unfold bind at 1.
  pose proof (zip_open_state (String c ap) s) as [Hzf Hzt].
  destruct (zip_open _ s) as [[ex|z] s2] eqn:Ez; simpl in Hzf, Hzt.
  - simpl. rewrite Hzf. apply Hfree.
  - unfold with_tempdir, mkdtemp, bind, gets, modify, fs_write, try_finally. simpl.
    destruct (extract _ _ _ _ _ _) as [r2 s3]. simpl. intros Hin.
    unfold staging_dir. rewrite <- Hzt.
    exact (rmtree_clears _ s3 p e Hin).
Qed.

Lemma main_removes_staging_witness :
  (forall p e, In (p, e) (fs init) -> under (staging_dir init) p = false) /\
  fst (main 10 (env_for "sample.apworld") init) = inr tt /\
  next_tmp (snd (main 10 (env_for "sample.apworld") init)) = 1%nat /\
  (forall p e, In (p, e) (fs (snd (main 10 (env_for "sample.apworld") init))) ->
               under (staging_dir init) p = false) /\
  fst (main 10 (env_for "nodata.apworld") init)
    = inl (FileNotFoundError "/tmp/tmp0/sample_game/Data.py") /\
  next_tmp (snd (main 10 (env_for "nodata.apworld") init)) = 1%nat /\
  (forall p e, In (p, e) (fs (snd (main 10 (env_for "nodata.apworld") init))) ->
               under (staging_dir init) p = false).
Proof.
  assert (H0 : forall p e, In (p, e) (fs init) -> under (staging_dir init) p = false)
    by (intros p e []).
  split; [exact H0|]. split; [vm_compute; reflexivity|].
  split; [vm_compute; reflexivity|]. split; [apply main_removes_staging, H0|].
  split; [vm_compute; reflexivity|]. split; [vm_compute; reflexivity|].
  apply main_removes_staging, H0.
Defined.

(** ** The module registry *)

Lemma serialize_keeps (data_module : nat) (ind : option indent) (s : state) :
  sys_path (snd (serialize data_module ind s)) = sys_path s /\
  sys_modules (snd (serialize data_module ind s)) = sys_modules s.
Proof.
  unfold serialize, bind, heap_get, gets, get_attr. cbn [fst snd].
  repeat match goal with
         | |- context [dict_get ?k ?d] => destruct (dict_get k d)
         end; cbn [fst snd throw ret]; try (split; reflexivity).
  unfold json_dump. destruct (indent_ok ind); [|split; reflexivity].
  destruct (dump_text _ _) as [txt [e|]];
    unfold write, modify, bind; cbn [fst snd]; split; reflexivity.
Qed.

(** Claim C10: whatever the outcome (the code of [Data.py] raised, a
    table was missing, [json.dump] failed, or all went well), once the
    module is registered its entry [manual_data_<name>] stays in
    [sys.modules], bound to the module the run created; only [sys.path]
    is back to what it was. *)
Theorem registration_outlives_run (fuel : nat) (repo : string) (ind : option indent)
    (T : path) (name : string) (s : state) :
  sys_modules (snd (load_and_dump fuel repo ind T name s)) !! module_key name
    = Some (next_obj s) /\
  sys_path (snd (load_and_dump fuel repo ind T name s)) = sys_path s.
Proof.
  unfold load_and_dump, bind. rewrite load_data_module_unfold. cbv zeta.
  destruct (exec_module fuel (data_spec T name) (next_obj s) _) as [r s2] eqn:E.
  assert (Hk : sys_modules s2 !! module_key name = Some (next_obj s)).
  { pose proof (proj2 (exec_module_confined (module_key name) fuel (data_spec T name)
                        (next_obj s) (or_introl eq_refl))
                 (set_sys_path (sys_path (registered name (T ++ [name]) s) ++ [repo])
                    (registered name (T ++ [name]) s))
                 (module_key name) (not_ext_self _)) as Hf.
    rewrite E in Hf. simpl in Hf. rewrite Hf. unfold registered. simpl.
    apply lookup_insert_eq. }
  destruct r as [e|u].
  - split; [exact Hk|reflexivity].
  - destruct (serialize_keeps (next_obj s) ind (set_sys_path (sys_path s) s2)) as [Hp Hm].
    rewrite Hp, Hm. split; [exact Hk|reflexivity].
Qed.

(** Claim C4: the registry keys are namespaced by plain string
    concatenation, which does not keep two plugins apart. The packages [a]
    and [a.b] get the distinct keys [manual_data_a] and [manual_data_a.b],
    but the submodule [manual_data_a.b.Items] the first run registered
    (from [a/b/Items.py]) is the module the second run's
    [from .Items import item_table] finds. The second run succeeds and its
    [items.json] holds the first archive's items, where the same run in a
    fresh process holds its own. *)
Lemma two_plugins_leak :
  module_key "a" <> module_key "a.b" /\
  (let s1 := snd (load_and_dump 10 "/ap" None T1 "a" two_plugins) in
   load_and_dump 10 "/ap" None T2 "a.b" s1 =
     (inr tt,
      snd (load_and_dump 10 "/ap" None T2 "a.b" s1)) /\
   stdout (snd (load_and_dump 10 "/ap" None T2 "a.b" s1)) =
     stdout s1 +:+
       encode None 0 (VDict [("game.json", VStr "AB"); ("items.json", VList [VStr "from a"]);
                             ("locations.json", VList []); ("regions.json", VList []);
                             ("categories.json", VNone); ("options.json", VNone);
                             ("meta.json", VNone)])) /\
  stdout (snd (load_and_dump 10 "/ap" None T2 "a.b" two_plugins)) =
    stdout two_plugins +:+
      encode None 0 (VDict [("game.json", VStr "AB"); ("items.json", VList [VStr "from a.b"]);
                            ("locations.json", VList []); ("regions.json", VList []);
                            ("categories.json", VNone); ("options.json", VNone);
                            ("meta.json", VNone)]).
Proof.
  split; [discriminate|]. split; [|vm_compute; reflexivity].
  cbv zeta. split; vm_compute; reflexivity.
Qed.

(** ** The indent of the output *)

(** Claim C5 (as the code has it): with [DEBUG_INDENT] unset the indent
    is [None] and nothing [json.dump] writes has a line break, also when it
    stops at an error. A non-empty string of at most 4300 ASCII digits
    becomes the [int] indent [n >= 0]; a string [isdigit()] accepts that
    has a digit [int()] refuses (such as a superscript two) or more than
    4300 digits makes [int()] raise [ValueError]. Any other string
    ([isdigit()] false, the empty string included) is the indent itself.
    An [int] indent up to [sys.maxsize] is [n] spaces, and a larger one
    makes [json.dump] raise [OverflowError] before it writes anything.
    With an accepted indent a dict with a member starts a new line followed
    by the indent. *)
Theorem debug_indent_modes (s : state) (d : string) :
  debug_indent_of None s = (inr None, s) /\
  (forall tbl, exists txt r,
     json_dump tbl None s = (r, set_stdout (stdout s +:+ txt) s) /\ has_newline txt = false) /\
  (d <> "" -> all_chars is_decimal_char d = true -> (String.length d <= 4300)%nat ->
     debug_indent_of (Some d) s = (inr (Some (IInt (digits_value 0 d))), s) /\
     0 <= digits_value 0 d) /\
  (isdigit d = true ->
     all_chars is_decimal_char d = false \/ (4300 < String.length d)%nat ->
     debug_indent_of (Some d) s = (inl (ValueError d), s)) /\
  (isdigit d = false -> debug_indent_of (Some d) s = (inr (Some (IStr d)), s)) /\
  (forall n, 0 <= n <= maxsize ->
     indent_ok (Some (IInt n)) = true /\
     String.length (indent_unit (IInt n)) = Z.to_nat n) /\
  (forall n tbl, maxsize < n ->
     json_dump tbl (Some (IInt n)) s
       = (inl (OverflowError "cannot fit 'int' into an index-sized integer"), s)) /\
  (forall i k o tbl, indent_ok (Some i) = true -> exists rest r,
     json_dump ((k, o) :: tbl) (Some i) s
       = (r, set_stdout (stdout s +:+ "{" +:+ String "010"%char (indent_unit i +:+ rest)) s)).
Proof.
  split; [reflexivity|]. split.
  { intros tbl. pose proof (dump_text_no_nl tbl) as Hn. unfold json_dump. cbn [indent_ok].
    destruct (dump_text None tbl) as [txt [e|]]; exists txt; eexists;
      (split; [reflexivity|exact Hn]). }
  split; [|split; [|split; [|split; [|split]]]].
  - intros Hne Hd Hlen. split.
    + unfold debug_indent_of.
      assert (Hi : isdigit d = true).
      { destruct d as [|c d']; [congruence|]. apply all_decimal_digit, Hd. }
      rewrite Hi. unfold py_int, int_max_str_digits. rewrite Hd.
      apply Nat.leb_le in Hlen. rewrite Hlen. reflexivity.
    + apply digits_value_nonneg; [lia|exact Hd].
  - intros Hi Hbad. unfold debug_indent_of. rewrite Hi. unfold py_int, int_max_str_digits.
    destruct Hbad as [Hbad|Hbad]; [rewrite Hbad; reflexivity|].
    destruct (all_chars is_decimal_char d); [|reflexivity].
    apply Nat.leb_gt in Hbad. rewrite Hbad. reflexivity.
  - intros Hd. unfold debug_indent_of. rewrite Hd. reflexivity.
  - intros n Hn. split; [|apply spaces_length].
    unfold indent_ok. apply andb_true_intro. split; apply Z.leb_le; lia.
  - intros n tbl Hn. unfold json_dump, indent_ok.
    replace (n <=? maxsize) with false by (symmetry; apply Z.leb_gt; lia).
    rewrite andb_false_r. reflexivity.
  - intros i k o tbl Hok. unfold json_dump. rewrite Hok.
    rewrite dump_text_cons by discriminate.
    destruct (close_chunks _ _ _ _) as [t err].
    exists t. cbn [open_text rep repeat String.concat].
    destruct err as [e|]; eexists; unfold write, modify, bind; cbn [fst snd];
      rewrite !str_app_cons, str_app_nil; reflexivity.
Qed.

Lemma debug_indent_modes_witness :
  debug_indent_of (Some "4") init = (inr (Some (IInt 4)), init) /\
  debug_indent_of (Some (String "178"%char "")) init
    = (inl (ValueError (String "178"%char "")), init) /\
  debug_indent_of (Some "ab") init = (inr (Some (IStr "ab")), init) /\
  json_dump [("game.json", PVal (VInt 1))] (Some (IInt (maxsize + 1))) init
    = (inl (OverflowError "cannot fit 'int' into an index-sized integer"), init).
Proof.
  split; [|split; [|split]].
  - destruct (proj1 (proj2 (proj2 (debug_indent_modes init "4")))
                ltac:(discriminate) ltac:(reflexivity) ltac:(cbn; lia)) as [H _].
    exact H.
  - apply (proj1 (proj2 (proj2 (proj2 (debug_indent_modes init (String "178"%char ""))))));
      [reflexivity|left; reflexivity].
  - apply (proj1 (proj2 (proj2 (proj2 (proj2 (debug_indent_modes init "ab")))))).
    reflexivity.
  - apply (proj1 (proj2 (proj2 (proj2 (proj2 (proj2 (proj2 (debug_indent_modes init "")))))))).
    lia.
Defined.

(** Claim C5, counterexample: [DEBUG_INDENT=ab] is not digits, so it is
    passed to [json.dump] as the indent string: the run succeeds and its
    output spans several lines, where without [DEBUG_INDENT] it is one.
    And [DEBUG_INDENT=9223372036854775808] ([sys.maxsize + 1]) is a
    non-negative integer, yet [json.dump] raises [OverflowError] and
    nothing is written. *)
Lemma debug_indent_text_indents :
  fst (main 10 (("DEBUG_INDENT", "ab") :: env_for "sample.apworld") init) = inr tt /\
  has_newline (stdout (snd (main 10 (("DEBUG_INDENT", "ab") :: env_for "sample.apworld") init)))
    = true /\
  has_newline (stdout (snd (main 10 (env_for "sample.apworld") init))) = false /\
  main 10 (("DEBUG_INDENT", "9223372036854775808") :: env_for "sample.apworld") init
    = (inl (OverflowError "cannot fit 'int' into an index-sized integer"),
       snd (main 10 (("DEBUG_INDENT", "9223372036854775808") :: env_for "sample.apworld") init)) /\
  stdout (snd (main 10 (("DEBUG_INDENT", "9223372036854775808") :: env_for "sample.apworld") init))
    = "".
Proof. split; [|split; [|split; [|split]]]; vm_compute; reflexivity. Qed.

(** Claim C6, counterexample: an archive with two top-level folders is
    processed with the first one (the run succeeds), and an archive with
    none fails with [IndexError]; no layout error is raised. *)
Lemma listing_not_checked :
  fst (main 10 (env_for "two.apworld") init) = inr tt /\
  fst (main 10 (env_for "empty.apworld") init) = inl IndexError.
Proof. split; vm_compute; reflexivity. Qed.

Lemma load_missing_data_file_witness :
  (fs_stat ((T1 ++ ["p"]) ++ ["Data.py"]) (fs init) = SNoEnt /\
   load_data_module 10 "/ap" T1 "p" init =
     (inl (FileNotFoundError "/tmp/tmp0/p/Data.py"), registered "p" (T1 ++ ["p"]) init)) /\
  (fs_stat ((T1 ++ ["p"]) ++ ["Data.py"]) (fs data_dir_state) = SDir /\
   load_data_module 10 "/ap" T1 "p" data_dir_state =
     (inl (IsADirectoryError "/tmp/tmp0/p/Data.py"),
      registered "p" (T1 ++ ["p"]) data_dir_state)) /\
  (fs_stat ((T1 ++ ["p"]) ++ ["Data.py"]) (fs file_root_state) = SNotDir /\
   load_data_module 10 "/ap" T1 "p" file_root_state =
     (inl (NotADirectoryError "/tmp/tmp0/p/Data.py"),
      registered "p" (T1 ++ ["p"]) file_root_state)).
Proof.
  split; [|split].
  - split; [vm_compute; reflexivity|].
    apply (proj1 (proj2 (load_missing_data_file 10 "/ap" T1 "p" init))).
    vm_compute. reflexivity.
  - split; [vm_compute; reflexivity|].
    apply (proj1 (proj2 (proj2 (load_missing_data_file 10 "/ap" T1 "p" data_dir_state)))).
    vm_compute. reflexivity.
  - split; [vm_compute; reflexivity|].
    apply (proj2 (proj2 (proj2 (load_missing_data_file 10 "/ap" T1 "p" file_root_state)))).
    vm_compute. reflexivity.
Defined.

(** Claim C8, counterexample: for an archive whose package folder has no
    [Data.py] the script fails with [FileNotFoundError] raised by
    [exec_module], and for one whose [Data.py] is a folder with
    [IsADirectoryError]; neither is the "Failed to create module spec"
    error. *)
Lemma missing_data_not_spec_error :
  fst (main 10 (env_for "nodata.apworld") init)
    = inl (FileNotFoundError "/tmp/tmp0/sample_game/Data.py") /\
  fst (main 10 (env_for "datadir.apworld") init)
    = inl (IsADirectoryError "/tmp/tmp0/sample_game/Data.py") /\
  spec_from_file_location (module_key "sample_game")
    ((T1 ++ ["sample_game"]) ++ ["Data.py"]) (T1 ++ ["sample_game"]) <> None.
Proof.
  split; [vm_compute; reflexivity|]. split; [vm_compute; reflexivity|].
  rewrite data_spec_built. discriminate.
Qed.

End Facts.

(* ------------------------------------------------------------------ *)
(** ** Further properties of the script *)

Module Properties.

(** *** [json.dump] is not atomic *)





(** *** Errors before the archive is opened *)

(** A [DEBUG_INDENT] that [isdigit()] accepts but [int()] does not (one
    with a superscript digit, or more than 4300 digits) makes the script
    raise [ValueError] before it opens the archive: the state is
    unchanged. The strings here are of Latin-1 characters. *)
Theorem main_bad_indent_digits (fuel : nat) (env : environ) (s : state) (ap repo d : string) :
  env_get "APWORLD_PATH" env = Some ap -> ap <> "" ->
  env_get "ARCHIPELAGO_REPO_PATH" env = Some repo -> repo <> "" ->
  env_get "DEBUG_INDENT" env = Some d -> isdigit d = true ->
  all_chars is_decimal_char d = false \/ (4300 < String.length d)%nat ->
  main fuel env s = (inl (ValueError d), s).
Proof.
  intros Ha Hap Hr Hrp Hd Hdig Hdec. unfold main. rewrite Ha, Hr.
  destruct ap as [|c ap]; [congruence|]. destruct repo as [|c' repo]; [congruence|].
  rewrite Hd. unfold bind at 1, debug_indent_of. rewrite Hdig. unfold py_int, int_max_str_digits.
  destruct Hdec as [Hdec|Hdec]; [rewrite Hdec; reflexivity|].
  destruct (all_chars is_decimal_char d); [|reflexivity].
  apply Nat.leb_gt in Hdec. rewrite Hdec. reflexivity.
Qed.

Lemma main_bad_indent_digits_witness :
  main 10 [("APWORLD_PATH", "sample.apworld"); ("ARCHIPELAGO_REPO_PATH", "/ap");
           ("DEBUG_INDENT", String "178"%char EmptyString)] init
    = (inl (ValueError (String "178"%char EmptyString)), init).
Proof.
  apply (main_bad_indent_digits 10 _ init "sample.apworld" "/ap");
    try reflexivity; try discriminate. left. reflexivity.
Defined.



(** *** The output depends on the module only through its attributes *)

(** Two modules with the same name and the same attributes give the same
    outcome and output, whatever the order [Data.py] defined them in. *)
Theorem serialize_attribute_order (id : nat) (ind : option indent) (s : state)
    (m1 m2 : modobj) :
  m_name m1 = m_name m2 ->
  (forall k, dict_get k (m_dict m1) = dict_get k (m_dict m2)) ->
  fst (serialize id ind (set_heap (<[id := m1]> (heap s)) (next_obj s) s))
    = fst (serialize id ind (set_heap (<[id := m2]> (heap s)) (next_obj s) s)) /\
  stdout (snd (serialize id ind (set_heap (<[id := m1]> (heap s)) (next_obj s) s)))
    = stdout (snd (serialize id ind (set_heap (<[id := m2]> (heap s)) (next_obj s) s))).
Proof.
  intros Hn Hk.
  unfold serialize, heap_get, gets, bind. cbn [fst snd heap set_heap].
  rewrite !lookup_insert_eq. cbn [default Datatypes.id].
  unfold get_attr, opt_attr. rewrite !(Hk "game_table"), !(Hk "item_table"),
    !(Hk "location_table"), !(Hk "region_table"), !(Hk "category_table"),
    !(Hk "option_table"), !(Hk "meta_table"), Hn.
  repeat match goal with
         | |- context [dict_get ?k (m_dict m2)] => destruct (dict_get k (m_dict m2))
         end; cbn [fst snd ret throw]; try (split; reflexivity);
    unfold json_dump, write, modify, bind; destruct (indent_ok ind);
    try (destruct (dump_text _ _) as [txt [e|]]); cbn; split; reflexivity.
Qed.

Lemma serialize_attribute_order_witness :
  let m1 := mkMod "m" None [("game_table", PVal VNone); ("item_table", PVal (VInt 1))] in
  let m2 := mkMod "m" None [("item_table", PVal (VInt 1)); ("game_table", PVal VNone)] in
  fst (serialize 0 None (set_heap (<[0%nat := m1]> (heap init)) (next_obj init) init))
    = fst (serialize 0 None (set_heap (<[0%nat := m2]> (heap init)) (next_obj init) init)).
Proof.
  intros m1 m2.
  assert (H : forall k, dict_get k (m_dict m1) = dict_get k (m_dict m2)).
  { intros k. unfold m1, m2. cbn [m_dict dict_get].
    destruct (String.eqb k "game_table") eqn:E1, (String.eqb k "item_table") eqn:E2;
      try reflexivity.
    apply String.eqb_eq in E1, E2. rewrite E1 in E2. discriminate. }
  exact (proj1 (serialize_attribute_order 0 None init m1 m2 eq_refl H)).
Defined.

(** *** Extraction stays inside the staging directory *)

Lemma strip_prefix_app (T r : path) : strip_prefix T (T ++ r) = Some r.
Proof. induction T as [|c T IH]; [reflexivity|]. cbn. rewrite String.eqb_refl. exact IH. Qed.

Lemma strip_prefix_some (a p r : path) : strip_prefix a p = Some r -> p = a ++ r.
Proof.
  revert p. induction a as [|c a IH]; intros p H; cbn in H; [injection H as <-; reflexivity|].
  destruct p as [|c' p]; [discriminate|].
  destruct (String.eqb c c') eqn:E; [|discriminate].
  apply String.eqb_eq in E. subst c'. cbn. f_equal. apply IH, H.
Qed.

Lemma strictly_under_spec (a p : path) :
  strictly_under a p = true <-> exists c r, p = a ++ c :: r.
Proof.
  unfold strictly_under. split.
  - destruct (strip_prefix a p) as [[|c r]|] eqn:E; try discriminate.
    intros _. apply strip_prefix_some in E. eauto.
  - intros (c & r & ->). rewrite strip_prefix_app. reflexivity.
Qed.

Lemma under_cases (a p : path) : under a p = true -> p = a \/ strictly_under a p = true.
Proof.
  unfold under. destruct (strip_prefix a p) as [r|] eqn:E; [|discriminate]. intros _.
  apply strip_prefix_some in E. subst p. destruct r as [|c r].
  - left. apply app_nil_r.
  - right. apply strictly_under_spec. eauto.
Qed.

Lemma strictly_under_prefix (a b p : path) :
  strictly_under (a ++ b) p = true -> strictly_under a p = true.
Proof.
  intros H. apply strictly_under_spec in H as (c & r & ->).
  apply strictly_under_spec. destruct b as [|c' b].
  - rewrite app_nil_r. eauto.
  - exists c', (b ++ c :: r). rewrite <- app_assoc. reflexivity.
Qed.

Lemma strictly_under_irrefl (a : path) : strictly_under a a = false.
Proof.
  destruct (strictly_under a a) eqn:E; [|reflexivity].
  apply strictly_under_spec in E as (c & r & E).
  apply (f_equal (@length string)) in E. rewrite length_app in E. cbn in E. lia.
Qed.

(** The parent of a path strictly below [a] is [a] or below [a]. *)
Lemma strictly_under_parent (a p : path) :
  strictly_under a p = true -> under a (removelast p) = true.
Proof.
  intros H. apply strictly_under_spec in H as (c & r & ->).
  rewrite removelast_app by discriminate. unfold under. rewrite strip_prefix_app. reflexivity.
Qed.

Lemma assoc_fs_put (x p : path) (e : entry) (l : list (path * entry)) :
  assoc_path x (fs_put p e l) = if bool_decide (x = p) then Some e else assoc_path x l.
Proof.
  induction l as [|[q e'] l IH]; [reflexivity|]. cbn [fs_put].
  destruct (decide (p = q)) as [<-|Hpq].
  - rewrite bool_decide_true by reflexivity. cbn [assoc_path].
    repeat case_bool_decide; try congruence; reflexivity.
  - rewrite bool_decide_false by exact Hpq. cbn [assoc_path]. rewrite IH.
    repeat case_bool_decide; try congruence; reflexivity.
Qed.

Lemma existsb_fs_put (f : path * entry -> bool) (p : path) (e : entry) (l : list (path * entry)) :
  (forall e', f (p, e') = f (p, e)) ->
  existsb f (fs_put p e l) = f (p, e) || existsb f l.
Proof.
  intros Hf. induction l as [|[q e'] l IH]; cbn [fs_put existsb]; [reflexivity|].
  case_bool_decide as Hpq.
  - subst q. cbn [existsb]. rewrite (Hf e'). rewrite orb_assoc, orb_diag. reflexivity.
  - cbn [existsb]. rewrite IH. rewrite !orb_assoc, (orb_comm (f (q, e'))). reflexivity.
Qed.

(** A directory stays one when something is written strictly below it. *)
Lemma kind_put_dir (q p : path) (e : entry) (l : list (path * entry)) :
  strictly_under q p = true -> kind q l = SDir -> kind q (fs_put p e l) = SDir.
Proof.
  intros Hu Hk. unfold kind in *. rewrite assoc_fs_put.
  case_bool_decide as Hqp.
  - subst q. rewrite strictly_under_irrefl in Hu. discriminate.
  - destruct (assoc_path q l) as [[b|]|]; [discriminate|reflexivity|].
    rewrite existsb_fs_put by reflexivity. cbn. rewrite Hu. reflexivity.
Qed.

Lemma walk_put (rest pre p : path) (e : entry) (l : list (path * entry)) :
  strictly_under (pre ++ rest) p = true -> walk pre rest l = SDir ->
  walk pre rest (fs_put p e l) = SDir.
Proof.
  revert pre. induction rest as [|c rest IH]; intros pre Hu Hw; cbn [walk] in *.
  - rewrite app_nil_r in Hu. apply kind_put_dir; assumption.
  - destruct (kind pre l) eqn:Hk; try discriminate.
    rewrite (kind_put_dir pre p e l (strictly_under_prefix _ _ _ Hu) Hk).
    apply IH; [|exact Hw]. rewrite <- app_assoc. exact Hu.
Qed.

Lemma fs_stat_put (d p : path) (e : entry) (l : list (path * entry)) :
  strictly_under d p = true -> fs_stat d l = SDir -> fs_stat d (fs_put p e l) = SDir.
Proof.
  destruct d as [|c d]; [reflexivity|]. cbn [fs_stat]. intros Hu. apply (walk_put d [c]), Hu.
Qed.

Lemma walk_snoc (rest pre : path) (c : string) (l : list (path * entry)) :
  walk pre (rest ++ [c]) l = SDir -> walk pre rest l = SDir.
Proof.
  revert pre. induction rest as [|c' rest IH]; intros pre H; cbn [app walk] in *.
  - destruct (kind pre l); congruence.
  - destruct (kind pre l); try discriminate. apply IH, H.
Qed.

(** The parent of a directory is a directory. *)
Lemma fs_stat_parent (d : path) (l : list (path * entry)) :
  fs_stat d l = SDir -> fs_stat (removelast d) l = SDir.
Proof.
  destruct d as [|c d]; [reflexivity|]. intros H.
  destruct d as [|c' d]; [reflexivity|].
  cbn [fs_stat] in H.
  assert (E : c' :: d = removelast (c' :: d) ++ [List.last (c' :: d) ""])
    by (apply app_removelast_last; discriminate).
  rewrite E in H.
  replace (removelast (c :: c' :: d)) with (c :: removelast (c' :: d)) by reflexivity.
  cbn [fs_stat]. eapply walk_snoc. exact H.
Qed.

Lemma keeps_refl (d : path) (s : state) : fs_stat d (fs s) = SDir -> keeps d s s.
Proof. intros H. split; [reflexivity|exact H]. Qed.

Lemma keeps_trans (d : path) (s1 s2 s3 : state) :
  keeps d s1 s2 -> keeps d s2 s3 -> keeps d s1 s3.
Proof.
  intros [H1 _] [H2 H3]. split; [|exact H3]. intros x Hx. rewrite H2, H1 by exact Hx.
  reflexivity.
Qed.

Lemma frame_ret (d : path) {A} (a : A) : frame d (ret a).
Proof. intros s H. apply keeps_refl, H. Qed.

Lemma frame_throw (d : path) {A} (e : exn) : frame d (@throw A e).
Proof. intros s H. apply keeps_refl, H. Qed.

Lemma frame_bind (d : path) {A B} (m : M A) (k : A -> M B) :
  frame d m -> (forall a, frame d (k a)) -> frame d (bind m k).
Proof.
  intros Hm Hk s H. unfold bind. specialize (Hm s H).
  destruct (m s) as [[e|a] s1]; [exact Hm|].
  eapply keeps_trans; [exact Hm|]. apply Hk, (proj2 Hm).
Qed.

(** A step that branches on [os.stat(p)]: each branch need only be
    confined in the states where the stat has that value. *)
Lemma frame_stat_of (d p : path) {A} (k : stat -> M A) :
  (forall st s, fs_stat d (fs s) = SDir -> fs_stat p (fs s) = st -> keeps d s (snd (k st s))) ->
  frame d (st <- stat_of p ;; k st).
Proof. intros Hk s H. unfold bind, stat_of, gets. apply Hk; [exact H|reflexivity]. Qed.

Lemma frame_try_except (d : path) {A} (m : M A) (h : exn -> M A) :
  frame d m -> (forall e, frame d (h e)) -> frame d (try_except m h).
Proof.
  intros Hm Hh s H. unfold try_except. specialize (Hm s H).
  destruct (m s) as [[e|a] s1]; [|exact Hm].
  eapply keeps_trans; [exact Hm|]. apply Hh, (proj2 Hm).
Qed.

Lemma frame_write (d p : path) (e : entry) :
  strictly_under d p = true -> frame d (fs_write p e).
Proof.
  intros Hu s H. unfold keeps, fs_write, modify, set_fs. cbn [snd fs]. split.
  - intros x Hx. rewrite assoc_fs_put. case_bool_decide; [subst; congruence|reflexivity].
  - apply fs_stat_put; assumption.
Qed.

Lemma frame_create (d p : path) (e : entry) :
  strictly_under d p = true -> frame d (create p e).
Proof.
  intros Hu. unfold create. apply frame_stat_of. intros st s H _.
  destruct st; try (apply keeps_refl, H). apply frame_write; assumption.
Qed.

Lemma frame_mkdir (d p : path) : under d p = true -> frame d (mkdir p).
Proof.
  intros Hu. unfold mkdir. apply frame_stat_of. intros st s H Hst.
  destruct (under_cases _ _ Hu) as [->|Hs].
  - rewrite H in Hst. subst st. apply keeps_refl, H.
  - destruct st; try (apply keeps_refl, H). apply frame_create; assumption.
Qed.

Lemma frame_open_wb (d p : path) (body : list stmt) : under d p = true -> frame d (open_wb p body).
Proof.
  intros Hu. unfold open_wb. apply frame_stat_of. intros st s H Hst.
  destruct (under_cases _ _ Hu) as [->|Hs].
  - rewrite H in Hst. subst st. apply keeps_refl, H.
  - destruct st; try (apply keeps_refl, H); [apply frame_write|apply frame_create]; assumption.
Qed.

Lemma frame_makedirs_n (d : path) (n : nat) :
  forall p, under d p = true -> frame d (makedirs_n n p).
Proof.
  induction n as [|n IH]; intros p Hu; [apply frame_mkdir, Hu|].
  cbn [makedirs_n]. cbv zeta. apply frame_stat_of. intros st s H Hst.
  apply frame_bind; [|intros _; apply frame_mkdir, Hu|exact H].
  destruct (under_cases _ _ Hu) as [->|Hs].
  - rewrite (fs_stat_parent _ _ H) in Hst. subst st. apply frame_ret.
  - destruct st; try apply frame_ret;
      (apply frame_try_except;
         [apply IH, strictly_under_parent, Hs
         |intros e; destruct e; first [apply frame_ret|apply frame_throw]]).
Qed.

Lemma frame_extract_member (members : list (string * list stmt)) (d : path) (name : string) :
  frame d (extract_member members d name).
Proof.
  unfold extract_member. cbv zeta.
  assert (Ht : under d (d ++ sanitize (split_slash name)) = true)
    by (unfold under; rewrite strip_prefix_app; reflexivity).
  assert (Hrest : frame d
            (if ends_with "/" name then
               st <- stat_of (d ++ sanitize (split_slash name)) ;;
               match st with
               | SDir => ret tt
               | _ => mkdir (d ++ sanitize (split_slash name))
               end
             else open_wb (d ++ sanitize (split_slash name)) (getinfo members name))).
  { destruct (ends_with "/" name).
    - apply frame_stat_of. intros st s H _.
      destruct st; try (apply frame_mkdir; assumption). apply keeps_refl, H.
    - apply frame_open_wb, Ht. }
  apply frame_stat_of. intros st s H Hst.
  apply frame_bind; [|intros _; exact Hrest|exact H].
  destruct (sanitize (split_slash name)) as [|c r] eqn:Es.
  - rewrite app_nil_r in Hst. rewrite (fs_stat_parent _ _ H) in Hst. subst st. apply frame_ret.
  - destruct st; try apply frame_ret; apply frame_makedirs_n;
      rewrite removelast_app by discriminate; unfold under; rewrite strip_prefix_app;
      reflexivity.
Qed.

Lemma frame_extract_names (members : list (string * list stmt)) (d : path) (names : list string) :
  frame d (extract_names members d names).
Proof.
  induction names as [|n ns IH]; cbn [extract_names]; [apply frame_ret|].
  apply frame_bind; [apply frame_extract_member|intros _; exact IH].
Qed.

(** [extractall] into a directory [d] changes the file system only
    strictly below [d]: every other path keeps its entry, whatever the
    member names ([..], [.], empty components and leading slashes are
    dropped from them), and whether the extraction succeeds or stops at
    an error. *)
Theorem extractall_stays_inside (members : list (string * list stmt)) (d : path) (s : state) :
  fs_stat d (fs s) = SDir ->
  forall x, strictly_under d x = false ->
  assoc_path x (fs (snd (extractall members d s))) = assoc_path x (fs s).
Proof.
  intros H x Hx. apply (frame_extract_names members d (map fst members) s H). exact Hx.
Qed.

Lemma extractall_stays_inside_witness :
  fs_stat T1 (fs (set_fs [(T1, DirE)] init)) = SDir /\
  strictly_under T1 ["tmp"; "evil"; "Data.py"] = false /\
  assoc_path ["tmp"; "evil"; "Data.py"] (fs (snd (extractall slip_zip T1 (set_fs [(T1, DirE)] init))))
    = assoc_path ["tmp"; "evil"; "Data.py"] (fs (set_fs [(T1, DirE)] init)) /\
  assoc_path (T1 ++ ["evil"; "Data.py"])
    (fs (snd (extractall slip_zip T1 (set_fs [(T1, DirE)] init)))) = Some (FileE sample_data).
Proof.
  split; [reflexivity|]. split; [reflexivity|]. split; [|vm_compute; reflexivity].
  apply extractall_stays_inside; reflexivity.
Defined.

(** *** The JSON text is ASCII *)













(** *** A submodule whose code raises is unregistered *)

Lemma find_spec_state (dir : path) (child : string) (s : state) :
  snd (find_spec dir child s) = s.
Proof.
  unfold find_spec, bind, stat_of, gets. cbn [fst snd].
  destruct (fs_stat (dir ++ [child; "__init__.py"]) (fs s)); cbn [ret fst snd]; try reflexivity;
    destruct (fs_stat (dir ++ [child +:+ ".py"]) (fs s)); cbn [ret fst snd]; try reflexivity;
    destruct (fs_stat (dir ++ [child]) (fs s)); reflexivity.
Qed.

(** [importlib] registers a submodule before running its code and removes
    the entry again when the code raises: a failed [load_child] leaves no
    entry for the submodule (unlike the script's own registration of the
    data module, which stays). *)
Theorem load_child_unregisters_on_error (exec : nat -> string -> list stmt -> M unit)
    (parent child : string) (s : state) (e : exn) :
  sys_modules s !! (parent +:+ "." +:+ child) = None ->
  fst (load_child exec parent child s) = inl e ->
  sys_modules (snd (load_child exec parent child s)) !! (parent +:+ "." +:+ child) = None.
Proof.
  intros Hnone. unfold load_child. cbv zeta.
  unfold bind, reg_get, gets, heap_get, new_module, reg_set, modify, try_except,
    reg_del, throw, ret, set_attr.
  cbn [fst snd].
  destruct (sys_modules s !! parent) as [pid|]; [|intros _; exact Hnone].
  unfold gets, modify. cbn [fst snd].
  destruct (m_path (default empty_mod (heap s !! pid))) as [dir|];
    [|intros _; exact Hnone].
  pose proof (find_spec_state dir child s) as Hf.
  destruct (find_spec dir child s) as [[ex|[[body mpath]|]] s1]; cbn [snd] in Hf; subst s1;
    [intros _; exact Hnone| |intros _; exact Hnone].
  match goal with
  | |- context [exec ?a ?b ?c ?d] => destruct (exec a b c d) as [[e'|u] s4]
  end.
  - intros _. cbn [fst snd sys_modules set_sys_modules]. apply lookup_delete_eq.
  - cbn. intros H. discriminate.
Qed.

Lemma load_child_unregisters_on_error_witness :
  fst (load_child (exec_body 10) "p" "c" sub_state) = inl (PluginError "boom") /\
  sys_modules (snd (load_child (exec_body 10) "p" "c" sub_state)) !! ("p" +:+ "." +:+ "c")
    = None.
Proof.
  assert (H : fst (load_child (exec_body 10) "p" "c" sub_state) = inl (PluginError "boom"))
    by (vm_compute; reflexivity).
  split; [exact H|].
  apply (load_child_unregisters_on_error _ "p" "c" sub_state (PluginError "boom"));
    [vm_compute; reflexivity|exact H].
Defined.

(** *** A decimal [DEBUG_INDENT] *)

Lemma digit_char_value (r : N) :
  (r < 10)%N ->
  Z.of_nat (nat_of_ascii (ascii_of_N (48 + r))) = 48 + Z.of_N r /\
  is_decimal_char (ascii_of_N (48 + r)) = true.
Proof.
  intros Hr. unfold is_decimal_char, nat_of_ascii.
  rewrite N_ascii_embedding by lia. rewrite N_nat_Z, N2Z.inj_add. split; [reflexivity|].
  apply andb_true_intro. split; apply Nat.leb_le; lia.
Qed.

Lemma nat_digits_value (fuel : nat) :
  forall (n : N) (acc : string), (n < 10 ^ N.of_nat fuel)%N ->
  digits_value 0 (nat_digits fuel n acc) = digits_value (Z.of_N n) acc /\
  (all_chars is_decimal_char acc = true ->
   all_chars is_decimal_char (nat_digits fuel n acc) = true).
Proof.
  induction fuel as [|f IH]; intros n acc Hn.
  - cbn [N.of_nat N.pow] in Hn. assert (n = 0%N) as -> by lia.
    split; [reflexivity|intros H; exact H].
  - assert (Hm : (N.modulo n 10 < 10)%N) by (apply N.mod_lt; discriminate).
    assert (Hdm : n = (10 * (n / 10) + n mod 10)%N) by (apply N.div_mod; discriminate).
    destruct (digit_char_value _ Hm) as [Hv Hd].
    cbn [nat_digits]. destruct (N.ltb n 10) eqn:Hlt.
    + apply N.ltb_lt in Hlt. cbn [digits_value all_chars]. rewrite Hv, Hd.
      rewrite N.mod_small by exact Hlt. split; [|intros H; exact H].
      f_equal. lia.
    + apply N.ltb_ge in Hlt.
      assert (Hq : (n / 10 < 10 ^ N.of_nat f)%N).
      { apply N.Div0.div_lt_upper_bound.
        rewrite Nat2N.inj_succ, N.pow_succ_r' in Hn. exact Hn. }
      destruct (IH (n / 10)%N (String (ascii_of_N (48 + n mod 10)) acc) Hq) as [IHv IHd].
      split.
      * rewrite IHv. cbn [digits_value]. rewrite Hv. f_equal.
        revert Hdm. generalize (n / 10)%N (n mod 10)%N. intros q r Hdm.
        rewrite Hdm. lia.
      * intros H. apply IHd. cbn [all_chars]. rewrite Hd. exact H.
Qed.

Lemma nat_digits_nonempty (fuel : nat) (n : N) (c : ascii) (acc : string) :
  nat_digits fuel n (String c acc) <> "".
Proof.
  revert n c acc. induction fuel as [|f IH]; intros n c acc; [discriminate|].
  cbn [nat_digits]. destruct (N.ltb n 10); [discriminate|apply IH].
Qed.

Lemma int_str_fuel (z : Z) :
  0 <= z -> (Z.to_N z < 10 ^ N.of_nat (S (Z.to_nat (Z.log2_up (z + 1)))))%N.
Proof.
  intros Hz. apply N2Z.inj_lt. rewrite N2Z.inj_pow, Z2N.id by exact Hz.
  rewrite nat_N_Z, Nat2Z.inj_succ, Z2Nat.id by apply Z.log2_up_nonneg.
  pose proof (Z.log2_up_nonneg (z + 1)) as HL.
  assert (H1 : z < 2 ^ Z.log2_up (z + 1)).
  { destruct (Z.eq_dec z 0) as [->|Hz0]; [reflexivity|].
    destruct (Z.log2_up_spec (z + 1)) as [_ H]; lia. }
  assert (H2 : 2 ^ Z.log2_up (z + 1) <= 10 ^ Z.log2_up (z + 1))
    by (apply Z.pow_le_mono_l; lia).
  assert (H3 : 10 ^ Z.log2_up (z + 1) < 10 ^ Z.succ (Z.log2_up (z + 1)))
    by (apply Z.pow_lt_mono_r; lia).
  lia.
Qed.

Lemma nat_digits_length (fuel : nat) :
  forall (k : nat) (n : N) (acc : string), (n < 10 ^ N.of_nat (S k))%N ->
  (String.length (nat_digits fuel n acc) <= S k + String.length acc)%nat.
Proof.
  induction fuel as [|f IH]; intros k n acc Hn; cbn [nat_digits]; [lia|].
  destruct (N.ltb n 10) eqn:Hlt; [cbn [String.length]; lia|].
  apply N.ltb_ge in Hlt. destruct k as [|k].
  - cbn in Hn. lia.
  - eapply Nat.le_trans; [apply (IH k)|cbn [String.length]; lia].
    apply N.Div0.div_lt_upper_bound.
    rewrite Nat2N.inj_succ, N.pow_succ_r' in Hn. exact Hn.
Qed.

(** [int()] reads back the decimal text [str()] gives a non-negative int
    below [10^4300] (the default limit on the digits [int] and [str]
    convert), so [DEBUG_INDENT] set to the decimal form of [n] makes the
    indent the int [n]. *)
Theorem debug_indent_decimal (n : Z) (s : state) :
  0 <= n -> n < 10 ^ 4300 ->
  py_int (int_str n) = inr n /\
  debug_indent_of (Some (int_str n)) s = (inr (Some (IInt n)), s).
Proof.
  intros Hn Hlim.
  assert (Hs : int_str n = nat_digits (S (Z.to_nat (Z.log2_up (n + 1)))) (Z.to_N n) "").
  { unfold int_str. rewrite Z.abs_eq by exact Hn.
    destruct (Z.ltb_spec n 0); [lia|reflexivity]. }
  destruct (nat_digits_value (S (Z.to_nat (Z.log2_up (n + 1)))) (Z.to_N n) ""
              (int_str_fuel n Hn)) as [Hv Hd].
  specialize (Hd eq_refl).
  assert (Hlen : (String.length (int_str n) <= 4300)%nat).
  { rewrite Hs. eapply Nat.le_trans; [apply (nat_digits_length _ 4299)|cbn [String.length]; lia].
    apply N2Z.inj_lt. rewrite N2Z.inj_pow, Z2N.id by exact Hn. exact Hlim. }
  assert (Hp : py_int (int_str n) = inr n).
  { unfold py_int, int_max_str_digits. rewrite <- Hs in Hd, Hv. rewrite Hd.
    apply Nat.leb_le in Hlen. rewrite Hlen, Hv. cbn [digits_value].
    rewrite Z2N.id by exact Hn. reflexivity. }
  split; [exact Hp|].
  assert (Hi : isdigit (int_str n) = true).
  { assert (Hne : int_str n <> "").
    { rewrite Hs. cbn [nat_digits]. destruct (N.ltb (Z.to_N n) 10);
        [discriminate|apply nat_digits_nonempty]. }
    rewrite <- Hs in Hd. destruct (int_str n) as [|c t]; [congruence|].
    cbn [isdigit]. apply all_decimal_digit. exact Hd. }
  unfold debug_indent_of. rewrite Hi, Hp. reflexivity.
Qed.

Lemma debug_indent_decimal_witness :
  debug_indent_of (Some (int_str 4)) init = (inr (Some (IInt 4)), init).
Proof.
  apply (proj2 (debug_indent_decimal 4 init ltac:(lia)
                  ltac:(apply Z.ltb_lt; vm_compute; reflexivity))).
Defined.

End Properties.
